(** * Kinect table system: point-cloud codec, LOD subsampling and
      interaction display state

    Shallow embedding of the JavaScript front end of the repository:
    - [decodePointCloud] and the subsampling block of [PointCloudViewer]
      (PointCloudViewer.jsx),
    - the per-object display state of [InteractionOverlay] and
      [InteractionDemo],
    together with a model of the hand interaction engine, which the
    front end only consumes.

    JavaScript numbers are IEEE-754 binary64 values; they are modelled
    with the executable specification [spec_float] of the standard
    library.  Numbers that the code only uses as integers (counts,
    offsets, object ids) are modelled as [Z]. *)

From Stdlib Require Import ZArith List Bool Lia String Ascii.
From Stdlib Require Import Floats.SpecFloat.
From stdpp Require Import base option list gmap strings.

Open Scope Z_scope.

(* ===================================================================== *)
(** * Numbers *)
(* ===================================================================== *)

Module Num.

  (** A JavaScript Number: binary64, kept in canonical form. *)
Definition f64 := spec_float.
  (** An element of a [Float32Array]: binary32, kept in canonical form. *)
Definition f32 := spec_float.

Definition NaN : spec_float := S754_nan.

  (** Integer to Number (exact for |z| < 2^53, which covers every integer
      the decoder converts: bytes and 16-bit values). *)
Definition of_int (z : Z) : f64 := binary_normalize 53 1024 z 0 false.

  (** Reading a [Float32Array] element or [DataView.getFloat32] result as
      a Number: the same real value, re-normalised to 53 bits. *)
Definition f32_load (x : f32) : f64 :=
    match x with
    | S754_finite s m e => binary_round 53 1024 s m e
    | _ => x
    end.

  (** Storing a Number into a [Float32Array]: round to nearest even
      binary32. *)
Definition f32_store (x : f64) : f32 :=
    match x with
    | S754_finite s m e => binary_round 24 128 s m e
    | _ => x
    end.

Definition div (x y : f64) : f64 := SFdiv 53 1024 x y.
Definition mul (x y : f64) : f64 := SFmul 53 1024 x y.
Definition add (x y : f64) : f64 := SFadd 53 1024 x y.

  (** The binary32 value with the given 32-bit pattern (NaN payloads are
      not distinguished). *)
Definition f32_of_bits (w : Z) : f32 :=
    let s := Z.testbit w 31 in
    let e := Z.land (Z.shiftr w 23) 255 in
    let m := Z.land w 8388607 in
    if e =? 0 then
      match m with
      | Zpos p => S754_finite s p (-149)
      | _ => S754_zero s
      end
    else if e =? 255 then
      (if m =? 0 then S754_infinity s else S754_nan)
    else
      match m + 8388608 with
      | Zpos p => S754_finite s p (e - 150)
      | _ => S754_nan
      end.

Definition f32_zero : f32 := S754_zero false.
Definition f32_one : f32 := S754_finite false 8388608 (-23).

  (** [0 <= x <= 1] on binary32 values (false on NaN). *)
Definition in_unit_interval (x : f32) : bool :=
    SFleb f32_zero x && SFleb x f32_one.

End Num.

(* ===================================================================== *)
(** * Platform: byte buffers, [DataView], typed arrays, [atob] *)
(* ===================================================================== *)

Module Platform.
Import Num.

  (** A [Uint8Array] and its backing [ArrayBuffer]: the buffers built by
      [decodePointCloud] start at byte 0 of a buffer of the same length. *)
Definition bytes := list Byte.byte.

Definition byteZ (b : Byte.byte) : Z := Z.of_N (Byte.to_N b).

  (** [arr[i]] on a typed array or list: [None] is JavaScript's
      [undefined]. *)
Definition at_index {A} (l : list A) (i : Z) : option A :=
    if i <? 0 then None else l !! Z.to_nat i.

  (** [DataView] accessors, little endian.  [None] stands for the
      [RangeError] thrown when the read leaves the buffer. *)
Definition getUint8 (buf : bytes) (off : Z) : option Z :=
    byteZ <$> at_index buf off.

Definition getUint16 (buf : bytes) (off : Z) : option Z :=
    b0 ← getUint8 buf off;
    b1 ← getUint8 buf (off + 1);
    Some (b0 + 256 * b1).

Definition getUint32 (buf : bytes) (off : Z) : option Z :=
    b0 ← getUint8 buf off;
    b1 ← getUint8 buf (off + 1);
    b2 ← getUint8 buf (off + 2);
    b3 ← getUint8 buf (off + 3);
    Some (b0 + 256 * b1 + 65536 * b2 + 16777216 * b3).

Definition getFloat32 (buf : bytes) (off : Z) : option f32 :=
    f32_of_bits <$> getUint32 buf off.

  (** [new Float32Array(buffer, byteOffset, length)]: a view on the
      buffer.  The constructor throws a [RangeError] when [byteOffset] is
      not a multiple of the element size (4), and when the view would
      leave the buffer. *)
Definition Float32Array_view (buf : bytes) (byteOffset len : Z)
    : option (list f32) :=
    if negb (byteOffset mod 4 =? 0) then None
    else if Z.of_nat (length buf) <? byteOffset + 4 * len then None
    else mapM (fun i : nat => getFloat32 buf (byteOffset + 4 * Z.of_nat i))
              (seq 0 (Z.to_nat len)).

  (** [new Float32Array(length)]: zero filled. *)
Definition Float32Array_new (len : Z) : list f32 :=
    replicate (Z.to_nat len) f32_zero.

  (** ** [atob]: forgiving base64 decoding *)

Definition is_ascii_whitespace (c : ascii) : bool :=
    let n := N_of_ascii c in
    ((n =? 9) || (n =? 10) || (n =? 12) || (n =? 13) || (n =? 32))%N.

Definition b64_value (c : ascii) : option N :=
    let n := N_of_ascii c in
    (if (65 <=? n) && (n <=? 90) then Some (n - 65)
     else if (97 <=? n) && (n <=? 122) then Some (n - 71)
     else if (48 <=? n) && (n <=? 57) then Some (n + 4)
     else if n =? 43 then Some 62
     else if n =? 47 then Some 63
     else None)%N.

Definition strip_padding (l : list ascii) : list ascii :=
    if (length l mod 4 =? 0)%nat then
      match rev l with
      | "="%char :: "="%char :: r => rev r
      | "="%char :: r => rev r
      | _ => l
      end
    else l.

Definition byte_of_N (n : N) : Byte.byte :=
    match Byte.of_N (n mod 256) with
    | Some b => b
    | None => Byte.x00
    end.

Fixpoint b64_groups (l : list N) : bytes :=
    match l with
    | a :: b :: c :: d :: r =>
        let w := (a * 262144 + b * 4096 + c * 64 + d)%N in
        byte_of_N (w / 65536) :: byte_of_N (w / 256) :: byte_of_N w
          :: b64_groups r
    | [a; b; c] =>
        let w := (a * 4096 + b * 64 + c)%N in
        [byte_of_N (w / 1024); byte_of_N (w / 4)]
    | [a; b] =>
        let w := (a * 64 + b)%N in
        [byte_of_N (w / 16)]
    | _ => []
    end.

  (** [atob(s)] followed by the [charCodeAt] copy loop of the decoder:
      the decoded bytes, or [None] for the [InvalidCharacterError]. *)
Definition atob (s : string) : option bytes :=
    let l := strip_padding
               (filter (fun c => is_ascii_whitespace c = false)
                       (list_ascii_of_string s)) in
    if (length l mod 4 =? 1)%nat then None
    else b64_groups <$> mapM b64_value l.

End Platform.

(* ===================================================================== *)
(** * Wire codec: [decodePointCloud] (PointCloudViewer.jsx) *)
(* ===================================================================== *)

Module Codec.
Import Num Platform.

  (** The [pointcloud] field of a [frame] message. *)
Record PointCloudData := {
    num_points : Z;
    data : string;
    compressed : bool;
    quantized : bool
  }.

  (** The object returned by [decodePointCloud]; [None] is [null]. *)
Record DecodeResult := {
    points : option (list f32);
    colors : option (list f32);
    numPoints : Z
  }.

Definition emptyResult : DecodeResult :=
    {| points := None; colors := None; numPoints := 0 |}.

Definition maxVal : Z := 65535.

  (** [(q / maxVal) * range + min], stored into the [Float32Array]. *)
Definition dequantize (q : Z) (range min : f32) : f32 :=
    f32_store (add (mul (div (of_int q) (of_int maxVal)) (f32_load range))
                   (f32_load min)).

  (** [rawData[k] / 255] stored into the [Float32Array]; a read outside
      the array is [undefined], and [undefined / 255] is [NaN]. *)
Definition colorChannel (b : option Byte.byte) : f32 :=
    f32_store (div (match b with
                    | Some b => of_int (byteZ b)
                    | None => NaN
                    end) (of_int 255)).

Section Decode.
    (** [pako.inflate]: third-party zlib decompression; [None] when it
        throws.  Its result is a [Uint8Array] on a buffer of its own. *)
Variable inflate : bytes -> option bytes.

Section Quantized.
Variable view : bytes.
Variables minX minY minZ rangeX rangeY rangeZ : f32.

      (** [for (let i = 0; i < numPoints; i++)]: [fuel] is the number of
          iterations left. *)
Fixpoint quantizedLoop (fuel : nat) (i offset : Z)
               (pointsArray : list f32) : option (list f32 * Z) :=
        match fuel with
        | O => Some (pointsArray, offset)
        | S fuel' =>
            qx ← getUint16 view offset;
            qy ← getUint16 view (offset + 2);
            qz ← getUint16 view (offset + 4);
            let offset := offset + 6 in
            let pointsArray :=
              <[Z.to_nat (i * 3) := dequantize qx rangeX minX]> pointsArray in
            let pointsArray :=
              <[Z.to_nat (i * 3 + 1) := dequantize qy rangeY minY]> pointsArray in
            let pointsArray :=
              <[Z.to_nat (i * 3 + 2) := dequantize qz rangeZ minZ]> pointsArray in
            quantizedLoop fuel' (i + 1) offset pointsArray
        end.
End Quantized.

Definition readQuantized (view : bytes) (numPoints offset : Z)
      : option (list f32 * Z) :=
      minX ← getFloat32 view offset;
      minY ← getFloat32 view (offset + 4);
      minZ ← getFloat32 view (offset + 8);
      rangeX ← getFloat32 view (offset + 12);
      rangeY ← getFloat32 view (offset + 16);
      rangeZ ← getFloat32 view (offset + 20);
      let offset := offset + 24 in
      quantizedLoop view minX minY minZ rangeX rangeY rangeZ
                    (Z.to_nat numPoints) 0 offset
                    (Float32Array_new (numPoints * 3)).

    (** [for (let i = 0; i < numPoints * 3; i++)]. *)
Fixpoint colorsLoop (rawData : bytes) (offset : Z) (fuel : nat) (i : Z)
             (colorsArray : list f32) : list f32 :=
      match fuel with
      | O => colorsArray
      | S fuel' =>
          colorsLoop rawData offset fuel' (i + 1)
            (<[Z.to_nat i := colorChannel (at_index rawData (offset + i))]>
               colorsArray)
      end.

    (** Base64 decoding and optional decompression: [rawData]. *)
Definition rawBytes (d : PointCloudData) : option bytes :=
      bytes ← atob (data d);
      if compressed d then inflate bytes else Some bytes.

(** The body of the [try] block; [None] when anything in it throws. *)
Definition decodeBody (d : PointCloudData) : option DecodeResult :=
      rawData ← rawBytes d;
      let view := rawData in
      numPoints ← getUint32 view 0;
      hc ← getUint8 view 4;
      let hasColors := hc =? 1 in
      let offset := 5 in
      '(points, offset) ←
        (if quantized d then readQuantized view numPoints offset
         else
           pts ← Float32Array_view rawData offset (numPoints * 3);
           Some (pts, offset + numPoints * 3 * 4));
      let colors :=
        if hasColors then
          Some (colorsLoop rawData offset (Z.to_nat (numPoints * 3)) 0
                           (Float32Array_new (numPoints * 3)))
        else None in
      Some {| points := Some points; colors := colors; numPoints := numPoints |}.

Definition decodeErrorMessage : string :=
      "Error decodificando nube de puntos:".

    (** [decodePointCloud(data)]: the returned object and what was written
        with [console.error]. [data = None] is a falsy argument. *)
Definition decodePointCloud (data : option PointCloudData)
      : DecodeResult * list string :=
      match data with
      | None => (emptyResult, [])
      | Some d =>
          if num_points d =? 0 then (emptyResult, [])
          else
            match decodeBody d with
            | Some r => (r, [])
            | None => (emptyResult, [decodeErrorMessage])
            end
      end.
End Decode.


(** ** Layout of the decoded arrays *)

(** Component [k] (0, 1 or 2) of a triple. *)
Definition axis {A} (k : Z) (x y z : A) : A :=
  if k =? 0 then x else if k =? 1 then y else z.

(** Byte offset just after the position data of [n] points. *)
Definition positionsEnd (d : PointCloudData) (n : Z) : Z :=
  if quantized d then 5 + 24 + 6 * n else 5 + n * 3 * 4.

(** [pts] holds the dequantized records of [raw]: the bounds are the six
    float32 values at bytes 5..28, and coordinate [k] of record [i] comes
    from the 16-bit value at byte [29 + 6 i + 2 k]. *)
Definition quantized_layout (raw : bytes) (n : Z) (pts : list f32) : Prop :=
  exists minX minY minZ rangeX rangeY rangeZ,
    getFloat32 raw 5 = Some minX /\ getFloat32 raw 9 = Some minY /\
    getFloat32 raw 13 = Some minZ /\ getFloat32 raw 17 = Some rangeX /\
    getFloat32 raw 21 = Some rangeY /\ getFloat32 raw 25 = Some rangeZ /\
    Z.of_nat (length pts) = 3 * n /\
    forall i k, 0 <= i < n -> 0 <= k < 3 ->
      exists q,
        getUint16 raw (29 + 6 * i + 2 * k) = Some q /\
        at_index pts (3 * i + k) =
        Some (f32_store
                (add (mul (div (of_int q) (of_int 65535))
                          (f32_load (axis k rangeX rangeY rangeZ)))
                     (f32_load (axis k minX minY minZ)))).

(** [cols] holds [3 n] channels; channel [i] is the byte at [off + i]
    divided by 255 whenever that byte exists, and then lies in [0, 1]. *)
Definition color_layout (raw : bytes) (off n : Z) (cols : list f32) : Prop :=
  Z.of_nat (length cols) = 3 * n /\
  forall i b, 0 <= i < 3 * n ->
    at_index raw (off + i) = Some b ->
    at_index cols i = Some (f32_store (div (of_int (byteZ b)) (of_int 255))) /\
    in_unit_interval (f32_store (div (of_int (byteZ b)) (of_int 255))) = true.

End Codec.

(* ===================================================================== *)
(** * Level of detail: the subsampling block of [PointCloudViewer] *)
(* ===================================================================== *)

Module Viewer.
Import Num Platform Codec.

  (** What the effect hands to the geometry. *)
Record Displayed := {
    shownPoints : list f32;
    shownColors : option (list f32);
    displayedPoints : Z
  }.

  (** Reading [points[k]] to store it in another [Float32Array]: the
      element itself, or [NaN] for [undefined]. *)
Definition element (a : list f32) (k : Z) : f32 :=
    default NaN (at_index a k).

  (** [Math.ceil(numPoints / maxDisplayPoints)] and
      [Math.floor(numPoints / step)] on the integers the viewer uses:
      [numPoints] is a 32-bit count and [maxDisplayPoints] comes from
      [parseInt] of a slider ranging over 1000..100000, where the binary64
      quotient has the same ceiling and floor as the exact one. *)
Definition ceilDiv (n b : Z) : Z := - ((- n) / b).
Definition floorDiv (n b : Z) : Z := n / b.

Section Subsample.
Variable points : list f32.
Variable colors : option (list f32).
Variables numPoints newNumPoints step : Z.

Definition copyPoint (src dst : list f32) (i j : Z) : list f32 :=
      let dst := <[Z.to_nat (j * 3) := element src (i * 3)]> dst in
      let dst := <[Z.to_nat (j * 3 + 1) := element src (i * 3 + 1)]> dst in
      <[Z.to_nat (j * 3 + 2) := element src (i * 3 + 2)]> dst.

    (** [for (let i = 0, j = 0; i < numPoints && j < newNumPoints;
             i += step, j++)]. *)
Fixpoint subsampleLoop (fuel : nat) (i j : Z)
             (newPoints : list f32) (newColors : option (list f32))
      : list f32 * option (list f32) :=
      match fuel with
      | O => (newPoints, newColors)
      | S fuel' =>
          if (i <? numPoints) && (j <? newNumPoints) then
            let newPoints := copyPoint points newPoints i j in
            let newColors :=
              match colors with
              | Some cs => (fun nc => copyPoint cs nc i j) <$> newColors
              | None => newColors
              end in
            subsampleLoop fuel' (i + step) (j + 1) newPoints newColors
          else (newPoints, newColors)
      end.
End Subsample.

  (** The block guarded by [if (numPoints > maxDisplayPoints)]. *)
Definition subsample (maxDisplayPoints : Z)
             (points : list f32) (colors : option (list f32)) (numPoints : Z)
    : Displayed :=
    if maxDisplayPoints <? numPoints then
      let step := ceilDiv numPoints maxDisplayPoints in
      let newNumPoints := floorDiv numPoints step in
      let newPoints := Float32Array_new (newNumPoints * 3) in
      let newColors :=
        match colors with
        | Some _ => Some (Float32Array_new (newNumPoints * 3))
        | None => None
        end in
      let '(newPoints, newColors) :=
        subsampleLoop points colors numPoints newNumPoints step
                      (Z.to_nat newNumPoints) 0 0 newPoints newColors in
      {| shownPoints := newPoints; shownColors := newColors;
         displayedPoints := newNumPoints |}
    else
      {| shownPoints := points; shownColors := colors;
         displayedPoints := numPoints |}.

  (** The point-cloud effect up to the geometry update: [None] when it
      returns early. *)
Definition updateCloud (maxDisplayPoints : Z) (r : DecodeResult)
    : option Displayed :=
    match points r with
    | None => None
    | Some pts =>
        if numPoints r =? 0 then None
        else Some (subsample maxDisplayPoints pts (colors r) (numPoints r))
    end.


(** ** Shape of a subsampled array *)

(** [res] is [dst] with the records from [j] on replaced by every
    [step]-th record of [src]. *)
Definition strided (src : list f32) (step newNumPoints j : Z)
           (dst res : list f32) : Prop :=
  length res = length dst /\
  (forall m, m < 3 * j -> at_index res m = at_index dst m) /\
  (forall j' k, j <= j' < newNumPoints -> 0 <= k < 3 ->
     at_index res (3 * j' + k) = Some (element src (3 * (j' * step) + k))).

(** Every [stride]-th record of [src], in order, [count] of them. *)
Definition every_nth (stride count : Z) (src res : list f32) : Prop :=
  Z.of_nat (length res) = 3 * count /\
  forall j k, 0 <= j < count -> 0 <= k < 3 ->
    at_index res (3 * j + k) = at_index src (3 * (j * stride) + k).

End Viewer.


(* ===================================================================== *)
(** * Display state of objects: [InteractionOverlay], [InteractionDemo] *)
(* ===================================================================== *)

Module Overlay.

(** An entry of [interaction.hands]; [None] is [null] or a missing field.
    Object ids are integers. *)
Record HandInfo := {
  selected : option Z;
  hovered : option Z
}.

(** An entry of [objects]; [label] stands for the fields that are copied
    unchanged. *)
Record SceneObject := {
  id : option Z;
  label : string
}.

Record Interaction := {
  hands : option (list (string * HandInfo));
  objects : option (list SceneObject)
}.

(** JavaScript truthiness of an id: [null], [undefined] and [0] are
    falsy. *)
Definition truthy (v : option Z) : bool :=
  match v with
  | Some z => negb (z =? 0)
  | None => false
  end.

(** [set.add(v)] for a truthy id. *)
Definition add (v : option Z) (s : gset Z) : gset Z :=
  match v with
  | Some z => {[ z ]} ∪ s
  | None => s
  end.

(** [set.has(v)]. *)
Definition has (s : gset Z) (v : option Z) : bool :=
  match v with
  | Some z => bool_decide (z ∈ s)
  | None => false
  end.

(** [a || b] on an id and an index. *)
Definition orElse (v : option Z) (index : nat) : Z :=
  match v with
  | Some z => if truthy v then z else Z.of_nat index
  | None => Z.of_nat index
  end.

(** [if (!interaction?.hands) return {}; return interaction.hands;]
    followed by [Object.values]. *)
Definition handStates (interaction : option Interaction) : list HandInfo :=
  match interaction with
  | Some i =>
      match hands i with
      | Some hs => snd <$> hs
      | None => []
      end
  | None => []
  end.

(** ** [InteractionOverlay] *)

Record ObjectWithState := {
  source : SceneObject;
  shownId : Z;
  isSelected : bool;
  isHovered : bool
}.

(** The [forEach] of [objectsWithState]: both sets are filled in one
    pass. *)
Definition collect (hs : list HandInfo) : gset Z * gset Z :=
  fold_left
    (fun '(selectedIds, hoveredIds) hand =>
       let selectedIds :=
         if truthy (selected hand) then add (selected hand) selectedIds
         else selectedIds in
       let hoveredIds :=
         if truthy (hovered hand) then add (hovered hand) hoveredIds
         else hoveredIds in
       (selectedIds, hoveredIds))
    hs (∅, ∅).

Definition objectsWithState (objs : list SceneObject)
           (interaction : option Interaction) : list ObjectWithState :=
  let '(selectedIds, hoveredIds) := collect (handStates interaction) in
  imap (fun index obj =>
          let key := Some (orElse (id obj) index) in
          {| source := obj;
             shownId := orElse (id obj) index;
             isSelected := has selectedIds key;
             isHovered := has hoveredIds key && negb (has selectedIds key) |})
       objs.

(** ** [InteractionDemo] (and [InteractionDemo3D], which derives the two
       sets with the same code) *)

Definition selectedIds (interaction : option Interaction) : gset Z :=
  fold_left
    (fun ids hand =>
       if truthy (selected hand) then add (selected hand) ids else ids)
    (handStates interaction) ∅.

Definition hoveredIds (interaction : option Interaction) : gset Z :=
  let sel := selectedIds interaction in
  fold_left
    (fun ids hand =>
       if truthy (hovered hand) && negb (has sel (hovered hand))
       then add (hovered hand) ids else ids)
    (handStates interaction) ∅.

(** The [isSelected] and [isHovered] props given to each [DemoShape]. *)
Definition demoShapes (demoObjects : list SceneObject)
           (interaction : option Interaction)
  : list (SceneObject * bool * bool) :=
  (fun obj => (obj, has (selectedIds interaction) (id obj),
                    has (hoveredIds interaction) (id obj)))
    <$> demoObjects.

End Overlay.


(* ===================================================================== *)
(** * Hand interaction engine *)
(* ===================================================================== *)

Module Engine.

(** Modelled from the spec: the interaction engine (object store, hit
    tester, per-hand state machine, tick) runs in the back end and is not
    among the sources; the front end only displays its snapshots.  The
    definitions below follow the data model, the store contract, the
    hit-test rule, the transition table with its arbitration policy, and
    the ordering and timeout rules of the specification.  Coordinates are
    integers.  The optional states [rotating], [scaling] and [menu] are
    declared but have no transitions, and the event log is left out.

    The specification describes the release of a lock in two ways.  The
    transition table releases it when a hand goes from [dragging] to
    [selected] ("release lock for other hands to acquire") and takes it
    again on the way back; the arbitration paragraph releases it "when
    the hand leaves dragging/selected or disappears".  Both are modelled:
    [Reading] selects one of them. *)

Inductive Reading :=
| release_on_drop      (* the transition table *)
| hold_while_selected. (* the arbitration paragraph *)

Inductive HandLabel := Left | Right.

Inductive Gesture := open_palm | closed_fist | pinch | pointing | unknown.

Inductive State :=
| s_idle | s_hover | s_selecting | s_selected
| s_dragging | s_rotating | s_scaling | s_menu.

Inductive Kind := circle | square | triangle | star | diamond | hexagon.

#[global] Instance HandLabel_eq_dec : EqDecision HandLabel.
Proof. solve_decision. Defined.
#[global] Instance Gesture_eq_dec : EqDecision Gesture.
Proof. solve_decision. Defined.
#[global] Instance State_eq_dec : EqDecision State.
Proof. solve_decision. Defined.

Definition Point : Type := Z * Z.

Record InteractiveObject := {
  id : Z;
  kind : Kind;
  anchor_box : Z * Z * Z * Z;
  offset : Z * Z
}.

Record HandState := {
  hand_label : HandLabel;
  position : Point;
  gesture : Gesture;
  state : State;
  hovered : option Z;
  selected : option Z;
  grab_offset : Z * Z;
  unseen : nat
}.

(** ** Object store *)

Record Store := {
  objects : list InteractiveObject;
  locks : gmap Z HandLabel;
  next_id : Z
}.

Definition get (i : Z) (st : Store) : option InteractiveObject :=
  find (fun o => bool_decide (id o = i)) (objects st).

Definition apply_offset (i : Z) (delta : Z * Z) (st : Store) : Store :=
  {| objects :=
       (fun o =>
          if bool_decide (id o = i) then
            {| id := id o; kind := kind o; anchor_box := anchor_box o;
               offset := ((offset o).1 + delta.1, (offset o).2 + delta.2) |}
          else o) <$> objects st;
     locks := locks st;
     next_id := next_id st |}.

Definition add (k : Kind) (box : Z * Z * Z * Z) (st : Store) : Store :=
  {| objects := objects st ++
                [{| id := next_id st; kind := k; anchor_box := box;
                    offset := (0, 0) |}];
     locks := locks st;
     next_id := next_id st + 1 |}.

Definition clear (st : Store) : Store :=
  {| objects := []; locks := locks st; next_id := next_id st |}.

(** Arbitration: an exclusive lock per object id. *)
Definition try_lock (h : HandLabel) (i : Z) (st : Store) : option Store :=
  match locks st !! i with
  | Some owner => if bool_decide (owner = h) then Some st else None
  | None =>
      Some {| objects := objects st; locks := <[i := h]> (locks st);
              next_id := next_id st |}
  end.

Definition unlock (h : HandLabel) (i : Z) (st : Store) : Store :=
  match locks st !! i with
  | Some owner =>
      if bool_decide (owner = h) then
        {| objects := objects st; locks := delete i (locks st);
           next_id := next_id st |}
      else st
  | None => st
  end.

(** ** Hit tester *)

Definition origin (o : InteractiveObject) : Point :=
  let '(x, y, _, _) := anchor_box o in
  (x + (offset o).1, y + (offset o).2).

Definition contains (o : InteractiveObject) (c : Point) : bool :=
  let '(_, _, w, h) := anchor_box o in
  let '(x, y) := origin o in
  (x <=? c.1) && (c.1 <=? x + w) && (y <=? c.2) && (c.2 <=? y + h).

(** Among the objects under the cursor the highest id wins. *)
Definition hit_test (c : Point) (objs : list InteractiveObject) : option Z :=
  fold_left
    (fun best o =>
       if contains o c then
         match best with
         | Some b => if b <? id o then Some (id o) else best
         | None => Some (id o)
         end
       else best)
    objs None.

(** ** Per-hand state machine *)

Definition fresh (h : HandLabel) : HandState :=
  {| hand_label := h; position := (0, 0); gesture := unknown;
     state := s_idle; hovered := None; selected := None;
     grab_offset := (0, 0); unseen := O |}.

Definition enter (hs : HandState) (s : State) (hov sel : option Z)
  : HandState :=
  {| hand_label := hand_label hs; position := position hs;
     gesture := gesture hs; state := s; hovered := hov; selected := sel;
     grab_offset := grab_offset hs; unseen := unseen hs |}.

Definition grab (hs : HandState) (o : option InteractiveObject)
  : HandState :=
  {| hand_label := hand_label hs; position := position hs;
     gesture := gesture hs; state := state hs; hovered := hovered hs;
     selected := selected hs;
     grab_offset :=
       match o with
       | Some o => ((origin o).1 - (position hs).1,
                    (origin o).2 - (position hs).2)
       | None => grab_offset hs
       end;
     unseen := unseen hs |}.

Definition seen (hs : HandState) (pos : Point) (g : Gesture) : HandState :=
  {| hand_label := hand_label hs; position := pos; gesture := g;
     state := state hs; hovered := hovered hs; selected := selected hs;
     grab_offset := grab_offset hs; unseen := O |}.

Definition missed (hs : HandState) : HandState :=
  {| hand_label := hand_label hs; position := position hs;
     gesture := gesture hs; state := state hs; hovered := hovered hs;
     selected := selected hs; grab_offset := grab_offset hs;
     unseen := S (unseen hs) |}.

Definition unlock_ref (h : HandLabel) (r : option Z) (st : Store) : Store :=
  match r with
  | Some i => unlock h i st
  | None => st
  end.

(** Back to [idle], with the lock released and both references cleared. *)
Definition reset (h : HandLabel) (hs : HandState) (st : Store)
  : HandState * Store :=
  (enter hs s_idle None None, unlock_ref h (selected hs) st).

Definition is_stale (r : option Z) (st : Store) : bool :=
  match r with
  | Some i => bool_decide (get i st = None)
  | None => false
  end.

Definition is_fist (g : Gesture) : bool := bool_decide (g = closed_fist).

(** One observation of hand [h] at [pos] with gesture [g]: the rows of
    the transition table, with the lock released on leaving [dragging]
    or kept until the hand leaves [selected], as [reading] says. *)
Definition observe (reading : Reading) (h : HandLabel) (pos : Point)
           (g : Gesture) (hs : HandState) (st : Store) : HandState * Store :=
  let delta := (pos.1 - (position hs).1, pos.2 - (position hs).2) in
  let hs := seen hs pos g in
  if is_stale (hovered hs) st || is_stale (selected hs) st then
    reset h hs st
  else
    let hit := hit_test pos (objects st) in
    match state hs with
    | s_idle =>
        match hit with
        | Some o =>
            if is_fist g then (hs, st)
            else (enter hs s_hover (Some o) None, st)
        | None => (hs, st)
        end
    | s_hover =>
        match hit with
        | None => (enter hs s_idle None (selected hs), st)
        | Some _ =>
            if is_fist g then
              match hovered hs with
              | Some o =>
                  match try_lock h o st with
                  | Some st' =>
                      (grab (enter hs s_dragging None (Some o)) (get o st),
                       st')
                  | None => (hs, st)
                  end
              | None => (hs, st)
              end
            else (hs, st)
        end
    | s_dragging =>
        if is_fist g then
          match selected hs with
          | Some o => (hs, apply_offset o delta st)
          | None => (hs, st)
          end
        else
          (enter hs s_selected (hovered hs) (selected hs),
           match reading with
           | release_on_drop => unlock_ref h (selected hs) st
           | hold_while_selected => st
           end)
    | s_selected =>
        if is_fist g && bool_decide (hit = selected hs) then
          match selected hs with
          | Some o =>
              match try_lock h o st with
              | Some st' => (enter hs s_dragging (hovered hs) (Some o), st')
              | None => (hs, st)
              end
          | None => (hs, st)
          end
        else if bool_decide (g = open_palm)
                && negb (bool_decide (hit = selected hs)) then
          match hit with
          | Some o =>
              (enter hs s_hover (Some o) None,
               unlock_ref h (selected hs) st)
          | None =>
              (enter hs s_idle None None, unlock_ref h (selected hs) st)
          end
        else (hs, st)
    | _ => (hs, st)
    end.

Section Tick.
Variable reading : Reading.
(** The grace window, in ticks, after which an unseen hand is reset. *)
Variable grace : nat.

Definition hand_tick (h : HandLabel) (upd : option (Point * Gesture))
           (hs : HandState) (st : Store) : HandState * Store :=
  match upd with
  | Some (pos, g) => observe reading h pos g hs st
  | None =>
      let hs := missed hs in
      if (grace <? unseen hs)%nat then reset h hs st else (hs, st)
  end.

Record World := {
  left : HandState;
  right : HandState;
  store : Store
}.

Definition initial : World :=
  {| left := fresh Left; right := fresh Right;
     store := {| objects := []; locks := ∅; next_id := 1 |} |}.

(** One tick: [Left] is processed before [Right]. *)
Definition tick (updL updR : option (Point * Gesture)) (w : World) : World :=
  let '(l, st) := hand_tick Left updL (left w) (store w) in
  let '(r, st) := hand_tick Right updR (right w) st in
  {| left := l; right := r; store := st |}.

Inductive Request :=
| Tick (updL updR : option (Point * Gesture))
| AddObject (k : Kind) (box : Z * Z * Z * Z)
| ClearObjects
| Disconnect.

Definition handle (w : World) (r : Request) : World :=
  match r with
  | Tick updL updR => tick updL updR w
  | AddObject k box =>
      {| left := left w; right := right w; store := add k box (store w) |}
  | ClearObjects =>
      {| left := left w; right := right w; store := clear (store w) |}
  | Disconnect =>
      {| left := fresh Left; right := fresh Right;
         store := {| objects := objects (store w); locks := ∅;
                     next_id := next_id (store w) |} |}
  end.

Definition run (rs : list Request) : World := fold_left handle rs initial.

End Tick.

(** Hand [hs] holds object [o] as selected. *)
Definition holds_selected (hs : HandState) (o : Z) : bool :=
  bool_decide (selected hs = Some o).

(** Hand [hs] is dragging object [o]. *)
Definition is_dragging (hs : HandState) (o : Z) : bool :=
  bool_decide (state hs = s_dragging) && bool_decide (selected hs = Some o).


(** ** Lock discipline *)

(** A dragging hand owns the lock of the object it drags. *)
Definition owns (h : HandLabel) (hs : HandState) (st : Store) : Prop :=
  state hs = s_dragging ->
  exists o, selected hs = Some o /\ locks st !! o = Some h.

(** The locks held by [h] are still held in [st']. *)
Definition keeps (h : HandLabel) (st st' : Store) : Prop :=
  forall o, locks st !! o = Some h -> locks st' !! o = Some h.

(** Both hands own what they drag. *)
Definition consistent (w : World) : Prop :=
  owns Left (left w) (store w) /\ owns Right (right w) (store w).

(** A hand owns the lock of the object it holds as selected. *)
Definition holds (h : HandLabel) (hs : HandState) (st : Store) : Prop :=
  forall o, selected hs = Some o -> locks st !! o = Some h.

(** Both hands own what they hold as selected. *)
Definition exclusive (w : World) : Prop :=
  holds Left (left w) (store w) /\ holds Right (right w) (store w).

End Engine.


(* ===================================================================== *)
(** * Example payloads *)
(* ===================================================================== *)

Module Samples.
Import Num Platform Codec.

(** No decompressor is needed for uncompressed payloads. *)
Definition noInflate : bytes -> option bytes := fun _ => None.

(** Header [num_points = 2], [has_colors = 0], then the raw float32
    points (0,0,0) and (1,1,1): 29 bytes. *)
Definition rawTwoPoints : PointCloudData :=
  {| num_points := 2;
     data := "AgAAAAAAAAAAAAAAAAAAAAAAAIA/AACAPwAAgD8=";
     compressed := false;
     quantized := false |}.

(** Header [num_points = 1], [has_colors = 1], bounds min = (0,0,0) and
    range = (1,1,1), one record (0, 65535, 32768), colour bytes
    (0, 255, 128): 38 bytes. *)
Definition quantizedOnePoint : PointCloudData :=
  {| num_points := 1;
     data := "AQAAAAEAAAAAAAAAAAAAAAAAAIA/AACAPwAAgD8AAP//AIAA/4A=";
     compressed := false;
     quantized := true |}.

(** The same payload cut after the position record: the three colour
    bytes are missing (35 bytes). *)
Definition quantizedNoColorBytes : PointCloudData :=
  {| num_points := 1;
     data := "AQAAAAEAAAAAAAAAAAAAAAAAAIA/AACAPwAAgD8AAP//AIA=";
     compressed := false;
     quantized := true |}.


(** The bytes of [quantizedOnePoint]. *)
Definition onePointBytes : bytes :=
  Eval vm_compute in default [] (atob (data quantizedOnePoint)).

(** The coordinates 0, 1, 2, ... as float32 values. *)
Definition ramp (len : Z) : list f32 :=
  (fun i : nat => f32_store (of_int (Z.of_nat i))) <$> seq 0 (Z.to_nat len).


(** Two hands over the same object: [Left] grabs object 1 and lets go,
    then [Right] grabs it while [Left] still points at it. *)
Definition sharedSelection : list Engine.Request :=
  [ Engine.AddObject Engine.square (10, 10, 20, 20);
    Engine.Tick (Some ((15, 15), Engine.open_palm)) None;
    Engine.Tick (Some ((15, 15), Engine.closed_fist)) None;
    Engine.Tick (Some ((15, 15), Engine.pointing))
                (Some ((16, 16), Engine.open_palm));
    Engine.Tick (Some ((15, 15), Engine.pointing))
                (Some ((16, 16), Engine.closed_fist)) ].

End Samples.


(* ===================================================================== *)
(** * Further definitions: numbers, colour table, statistics, overlay *)
(* ===================================================================== *)

Module NumExtra.
Import Num Platform.
(** A finite value: neither NaN nor an infinity. *)
Definition is_finite (x : spec_float) : bool :=
  match x with
  | S754_finite _ _ _ | S754_zero _ => true
  | _ => false
  end.

(** [dst[j] = src[k]] between two [Float32Array]s, as JavaScript does
    it: the element is read as a Number ([undefined] outside the array)
    and the Number is stored back as a float32. *)
Definition copiedElement (src : list f32) (k : Z) : f32 :=
  f32_store (match at_index src k with
             | Some x => f32_load x
             | None => NaN
             end).
End NumExtra.

Module ColorDefs.
Import Num Platform Codec.
(** The 256 byte values, in order. *)
Definition all_bytes : bytes :=
  Eval vm_compute in omap Byte.of_N (N.of_nat <$> seq 0 256).

(** Every byte with its colour channel. *)
Definition tagged_channels : list (Byte.byte * f32) :=
  (fun b => (b, colorChannel (Some b))) <$> all_bytes.

(** The order of two colour channels is the order of their bytes. *)
Definition channel_order_agrees (x y : Byte.byte * f32) : bool :=
  Bool.eqb (SFltb x.2 y.2) (byteZ x.1 <? byteZ y.1).

Definition channel_order_table : bool :=
  let t := tagged_channels in
  forallb (fun x => forallb (channel_order_agrees x) t) t.
End ColorDefs.

Module StatsDefs.
Import Num Platform Codec Viewer.

(** The [stats] state of [PointCloudViewer]; [totalPoints] is absent
    until the first update. *)
Record Stats := {
  shown : Z;
  totalPoints : option Z;
  fps : Z
}.

(** [setStats(prev => ({ ...prev, numPoints: displayedPoints,
     totalPoints: numPoints, ... }))]. *)
Definition updateStats (prev : Stats) (d : Displayed) (numPoints : Z)
  : Stats :=
  {| shown := displayedPoints d; totalPoints := Some numPoints;
     fps := fps prev |}.

(** What [{stats.totalPoints && stats.totalPoints !== stats.numPoints &&
    (<span> / {total}</span>)}] renders: nothing for [undefined] and
    [false], the number itself for 0. *)
Inductive Suffix := NoSuffix | StrayZero | OutOf (total : Z).

Definition totalSuffix (s : Stats) : Suffix :=
  match totalPoints s with
  | None => NoSuffix
  | Some t =>
      if t =? 0 then StrayZero
      else if negb (t =? shown s) then OutOf t
      else NoSuffix
  end.

(** The statistics after the point-cloud effect ran on decoded result
    [r]: unchanged when the effect returns early. *)
Definition statsAfter (maxDisplayPoints : Z) (prev : Stats)
           (r : DecodeResult) : Stats :=
  match updateCloud maxDisplayPoints r with
  | Some d => updateStats prev d (numPoints r)
  | None => prev
  end.

End StatsDefs.

Module OverlayExtra.
Import Overlay.

(** Some hand of the snapshot holds [z] in field [f]. *)
Definition held (f : HandInfo -> option Z) (hs : list HandInfo) (z : Z) : Prop :=
  exists hand, hand ∈ hs /\ f hand = Some z.

(** [array.slice(start)]: a negative [start] counts from the end, and
    both ends are clamped to the array. *)
Definition slice_from {A} (start : Z) (l : list A) : list A :=
  let len := Z.of_nat (length l) in
  let k := if start <? 0 then Z.max (len + start) 0 else Z.min start len in
  drop (Z.to_nat k) l.

(** [interaction?.events?.slice(-3) || []], where [events] is
    [interaction?.events] ([None] when either is missing).  An array is
    truthy even when empty, so [|| []] only replaces [undefined]. *)
Definition recentEvents {A} (events : option (list A)) : list A :=
  match events with
  | Some evs => slice_from (-3) evs
  | None => []
  end.

(** The object a connection line of [InteractionOverlay] ends at, for a
    hand entry [hand] whose [position] field is [position]:
    [if (!state.selected || !state.position) return null;
     objectsWithState.find(o => o.id === state.selected)].
    The line itself is drawn when that object also has a [center]. *)
Definition connectionTarget (objs : list SceneObject)
           (interaction : option Interaction)
           (hand : HandInfo) (position : option (Z * Z))
  : option ObjectWithState :=
  if negb (truthy (selected hand)) || negb (bool_decide (is_Some position))
  then None
  else List.find (fun o => bool_decide (Some (shownId o) = selected hand))
                 (objectsWithState objs interaction).

End OverlayExtra.

Module MoreSamples.
Import Num Platform Codec Samples Overlay.

(** The bytes of [quantizedNoColorBytes]. *)
Definition noColorBytes : bytes :=
  Eval vm_compute in default [] (atob (data quantizedNoColorBytes)).

(** Left selects object 7, Right hovers objects 7 and then nothing else. *)
Definition twoHands : option Interaction :=
  Some {| hands := Some [("Left"%string, {| selected := Some 7; hovered := None |});
                         ("Right"%string, {| selected := None; hovered := Some 7 |})];
          objects := None |}.
Definition threeObjects : list SceneObject :=
  [ {| id := Some 5; label := "a" |};
    {| id := Some 7; label := "b" |};
    {| id := Some 9; label := "c" |} ].
(** A snapshot in which a hand reports object 0 as selected and hovered. *)
Definition zeroHand : option Interaction :=
  Some {| hands := Some [("Left"%string,
                          {| selected := Some 0; hovered := Some 0 |})];
          objects := None |}.

End MoreSamples.


(* ===================================================================== *)
(** * Facts about the wire codec *)
(* ===================================================================== *)

Module CodecFacts.
Import Num Platform Codec.

Lemma byteZ_range (b : Byte.byte) : 0 <= byteZ b < 256.
Proof. destruct b; vm_compute; split; congruence. Qed.

Lemma at_index_Some {A} (l : list A) (i : Z) (x : A) :
  at_index l i = Some x <-> 0 <= i /\ l !! Z.to_nat i = Some x.
Proof.
  unfold at_index. destruct (Z.ltb_spec i 0); split; intros H1.
  - discriminate.
  - lia.
  - split; [lia | assumption].
  - tauto.
Qed.

Lemma at_index_in_range {A} (l : list A) (i : Z) :
  0 <= i < Z.of_nat (length l) -> exists x, at_index l i = Some x.
Proof.
  intros Hi. unfold at_index.
  destruct (Z.ltb_spec i 0); [lia|].
  destruct (lookup_lt_is_Some_2 l (Z.to_nat i)) as [x Hx]; [lia|].
  exists x; exact Hx.
Qed.

Lemma at_index_lt {A} (l : list A) (i : Z) (x : A) :
  at_index l i = Some x -> 0 <= i < Z.of_nat (length l).
Proof.
  intros H. apply at_index_Some in H as [H0 H1].
  apply lookup_lt_Some in H1. lia.
Qed.

Lemma getUint8_Some buf off v :
  getUint8 buf off = Some v ->
  0 <= off < Z.of_nat (length buf) /\ 0 <= v < 256.
Proof.
  unfold getUint8. destruct (at_index buf off) as [b|] eqn:E; simpl; [|discriminate].
  intros [= <-]. split; [eapply at_index_lt; eauto | apply byteZ_range].
Qed.

Lemma getUint8_in_range buf off :
  0 <= off < Z.of_nat (length buf) -> exists v, getUint8 buf off = Some v.
Proof.
  intros H. destruct (at_index_in_range buf off H) as [b Hb].
  exists (byteZ b). unfold getUint8. now rewrite Hb.
Qed.

Lemma getUint16_in_range buf off :
  0 <= off -> off + 2 <= Z.of_nat (length buf) ->
  exists v, getUint16 buf off = Some v.
Proof.
  intros H0 H1. unfold getUint16.
  destruct (getUint8_in_range buf off) as [b0 ->]; [lia|].
  destruct (getUint8_in_range buf (off + 1)) as [b1 ->]; [lia|].
  simpl. eauto.
Qed.

Lemma getUint16_Some buf off v :
  getUint16 buf off = Some v ->
  0 <= off /\ off + 2 <= Z.of_nat (length buf) /\ 0 <= v <= 65535.
Proof.
  unfold getUint16.
  destruct (getUint8 buf off) as [b0|] eqn:E0; simpl; [|discriminate].
  destruct (getUint8 buf (off + 1)) as [b1|] eqn:E1; simpl; [|discriminate].
  intros [= <-].
  apply getUint8_Some in E0, E1. lia.
Qed.

Lemma getUint32_Some buf off v :
  getUint32 buf off = Some v ->
  0 <= off /\ off + 4 <= Z.of_nat (length buf) /\ 0 <= v < 4294967296.
Proof.
  unfold getUint32.
  destruct (getUint8 buf off) as [b0|] eqn:E0; simpl; [|discriminate].
  destruct (getUint8 buf (off + 1)) as [b1|] eqn:E1; simpl; [|discriminate].
  destruct (getUint8 buf (off + 2)) as [b2|] eqn:E2; simpl; [|discriminate].
  destruct (getUint8 buf (off + 3)) as [b3|] eqn:E3; simpl; [|discriminate].
  intros [= <-].
  apply getUint8_Some in E0, E1, E2, E3. lia.
Qed.

Lemma Float32Array_new_length n :
  0 <= n -> Z.of_nat (length (Float32Array_new n)) = n.
Proof. intros H. unfold Float32Array_new. rewrite length_replicate. lia. Qed.


Lemma at_index_insert_eq {A} (l : list A) (a : Z) (v : A) :
  0 <= a < Z.of_nat (length l) ->
  at_index (<[Z.to_nat a := v]> l) a = Some v.
Proof.
  intros H. unfold at_index. destruct (Z.ltb_spec a 0); [lia|].
  apply list_lookup_insert_eq. lia.
Qed.

Lemma at_index_insert_ne {A} (l : list A) (a b : Z) (v : A) :
  0 <= a -> a <> b ->
  at_index (<[Z.to_nat a := v]> l) b = at_index l b.
Proof.
  intros H Hne. unfold at_index. destruct (Z.ltb_spec b 0); [reflexivity|].
  apply list_lookup_insert_ne. lia.
Qed.

Section QuantizedLoop.
Variable view : bytes.
Variables minX minY minZ rangeX rangeY rangeZ : f32.

Let loop := quantizedLoop view minX minY minZ rangeX rangeY rangeZ.

Lemma quantizedLoop_inv (fuel : nat) :
  forall i offset arr arr' off',
    0 <= i ->
    3 * (i + Z.of_nat fuel) <= Z.of_nat (length arr) ->
    loop fuel i offset arr = Some (arr', off') ->
    off' = offset + 6 * Z.of_nat fuel /\
    length arr' = length arr /\
    (forall k, 0 <= k < 3 * i -> at_index arr' k = at_index arr k) /\
    (forall j k, 0 <= j < Z.of_nat fuel -> 0 <= k < 3 ->
       exists q, getUint16 view (offset + 6 * j + 2 * k) = Some q /\
                 at_index arr' (3 * (i + j) + k) =
                 Some (dequantize q (axis k rangeX rangeY rangeZ)
                                    (axis k minX minY minZ))).
Proof.
  induction fuel as [|fuel IH]; intros i offset arr arr' off' Hi Hlen Hrun.
  - simpl in Hrun. injection Hrun as <- <-.
    split; [lia | split; [reflexivity | split]].
    + intros; reflexivity.
    + intros; lia.
  - subst loop. simpl in Hrun.
    destruct (getUint16 view offset) as [qx|] eqn:Ex; simpl in Hrun; [|discriminate].
    destruct (getUint16 view (offset + 2)) as [qy|] eqn:Ey; simpl in Hrun; [|discriminate].
    destruct (getUint16 view (offset + 4)) as [qz|] eqn:Ez; simpl in Hrun; [|discriminate].
    apply IH in Hrun as (Hoff & Hl & Hkeep & Hnew); [| lia | rewrite !length_insert; lia].
    rewrite !length_insert in Hl.
    assert (Hold : forall k, 0 <= k < 3 * i ->
              at_index arr' k = at_index arr k).
    { intros k Hk. rewrite Hkeep by lia.
      rewrite !at_index_insert_ne by lia. reflexivity. }
    split; [lia | split; [exact Hl | split; [exact Hold |]]].
    intros j k Hj Hk.
    destruct (Z.eq_dec j 0) as [-> | Hj0].
    + rewrite Hkeep by lia.
      assert (Hk3 : k = 0 \/ k = 1 \/ k = 2) by lia.
      destruct Hk3 as [-> | [-> | ->]]; unfold axis; simpl.
      * exists qx. split; [rewrite <- Ex; f_equal; lia|].
        rewrite !at_index_insert_ne by lia.
        replace (3 * (i + 0) + 0) with (i * 3) by lia.
        apply at_index_insert_eq. lia.
      * exists qy. split; [rewrite <- Ey; f_equal; lia|].
        rewrite at_index_insert_ne by lia.
        replace (3 * (i + 0) + 1) with (i * 3 + 1) by lia.
        apply at_index_insert_eq. rewrite length_insert. lia.
      * exists qz. split; [rewrite <- Ez; f_equal; lia|].
        replace (3 * (i + 0) + 2) with (i * 3 + 2) by lia.
        apply at_index_insert_eq. rewrite !length_insert. lia.
    + destruct (Hnew (j - 1) k ltac:(lia) Hk) as (q & Hq & Hv).
      exists q. split.
      * rewrite <- Hq. f_equal. lia.
      * rewrite <- Hv. f_equal. lia.
Qed.

Lemma quantizedLoop_total (fuel : nat) :
  forall i offset arr,
    0 <= offset ->
    offset + 6 * Z.of_nat fuel <= Z.of_nat (length view) ->
    exists res, loop fuel i offset arr = Some res.
Proof.
  induction fuel as [|fuel IH]; intros i offset arr Ho Hlen.
  - simpl. eauto.
  - subst loop. simpl.
    destruct (getUint16_in_range view offset) as [qx ->]; [lia | lia |].
    destruct (getUint16_in_range view (offset + 2)) as [qy ->]; [lia | lia |].
    destruct (getUint16_in_range view (offset + 4)) as [qz ->]; [lia | lia |].
    simpl. apply IH; lia.
Qed.

End QuantizedLoop.

Lemma colorsLoop_spec rawData offset (fuel : nat) :
  forall i arr,
    0 <= i ->
    i + Z.of_nat fuel <= Z.of_nat (length arr) ->
    let res := colorsLoop rawData offset fuel i arr in
    length res = length arr /\
    (forall k, 0 <= k < i -> at_index res k = at_index arr k) /\
    (forall k, i <= k < i + Z.of_nat fuel ->
       at_index res k = Some (colorChannel (at_index rawData (offset + k)))).
Proof.
  induction fuel as [|fuel IH]; intros i arr Hi Hlen; simpl.
  - split; [reflexivity | split; intros; [reflexivity | lia]].
  - destruct (IH (i + 1)
                (<[Z.to_nat i := colorChannel (at_index rawData (offset + i))]> arr))
      as (Hl & Hkeep & Hnew); [lia | rewrite length_insert; lia |].
    rewrite length_insert in Hl.
    split; [exact Hl | split].
    + intros k Hk. rewrite Hkeep by lia. apply at_index_insert_ne; lia.
    + intros k Hk. destruct (Z.eq_dec k i) as [-> | Hne].
      * rewrite Hkeep by lia. apply at_index_insert_eq. lia.
      * apply Hnew. lia.
Qed.

Lemma colorChannel_unit (b : Byte.byte) :
  in_unit_interval (colorChannel (Some b)) = true.
Proof. destruct b; vm_compute; reflexivity. Qed.


Section DecodeFacts.
Variable inflate : bytes -> option bytes.

Lemma decode_success d pts :
  points (decodePointCloud inflate (Some d)).1 = Some pts ->
  num_points d <> 0 /\
  exists r, decodeBody inflate d = Some r /\
            decodePointCloud inflate (Some d) = (r, []).
Proof.
  unfold decodePointCloud.
  destruct (Z.eqb_spec (num_points d) 0) as [E | E]; [discriminate|].
  destruct (decodeBody inflate d) as [r|]; [|discriminate].
  intros _. split; [exact E | exists r; split; reflexivity].
Qed.

Lemma decode_outcomes data :
  let '(r, log) := decodePointCloud inflate data in
  (r = emptyResult /\ (log = [] \/ log = [decodeErrorMessage])) \/
  (exists pts, points r = Some pts /\ log = []).
Proof.
  unfold decodePointCloud. destruct data as [d|]; [|left; auto].
  destruct (num_points d =? 0); [left; auto|].
  destruct (decodeBody inflate d) as [r|] eqn:E; [|left; auto].
  right. unfold decodeBody in E.
  destruct (rawBytes inflate d) as [raw|]; simpl in E; [|discriminate].
  destruct (getUint32 raw 0) as [n|]; simpl in E; [|discriminate].
  destruct (getUint8 raw 4) as [hc|]; simpl in E; [|discriminate].
  match type of E with
  | context [mbind _ ?m] => destruct m as [[pts off]|]
  end; simpl in E; [|discriminate].
  injection E as <-. exists pts. split; reflexivity.
Qed.

Lemma decodeBody_raw_fails d :
  quantized d = false -> decodeBody inflate d = None.
Proof.
  intros Hq. unfold decodeBody.
  destruct (rawBytes inflate d) as [raw|]; simpl; [|reflexivity].
  destruct (getUint32 raw 0) as [n|]; simpl; [|reflexivity].
  destruct (getUint8 raw 4) as [hc|]; simpl; [|reflexivity].
  rewrite Hq. unfold Float32Array_view. reflexivity.
Qed.

Lemma raw_payload_never_decodes d :
  quantized d = false -> num_points d <> 0 ->
  decodePointCloud inflate (Some d) = (emptyResult, [decodeErrorMessage]).
Proof.
  intros Hq Hn. unfold decodePointCloud.
  destruct (Z.eqb_spec (num_points d) 0); [contradiction|].
  now rewrite decodeBody_raw_fails.
Qed.

Lemma decodeBody_quantized d r :
  quantized d = true -> decodeBody inflate d = Some r ->
  exists raw n hc minX minY minZ rangeX rangeY rangeZ arr off,
    rawBytes inflate d = Some raw /\
    getUint32 raw 0 = Some n /\ getUint8 raw 4 = Some hc /\
    getFloat32 raw 5 = Some minX /\ getFloat32 raw 9 = Some minY /\
    getFloat32 raw 13 = Some minZ /\ getFloat32 raw 17 = Some rangeX /\
    getFloat32 raw 21 = Some rangeY /\ getFloat32 raw 25 = Some rangeZ /\
    quantizedLoop raw minX minY minZ rangeX rangeY rangeZ
                  (Z.to_nat n) 0 29 (Float32Array_new (n * 3)) = Some (arr, off) /\
    r = {| points := Some arr;
           colors := if hc =? 1 then
                       Some (colorsLoop raw off (Z.to_nat (n * 3)) 0
                                        (Float32Array_new (n * 3)))
                     else None;
           numPoints := n |}.
Proof.
  intros Hq E. unfold decodeBody in E.
  destruct (rawBytes inflate d) as [raw|]; simpl in E; [|discriminate].
  destruct (getUint32 raw 0) as [n|] eqn:En; simpl in E; [|discriminate].
  destruct (getUint8 raw 4) as [hc|] eqn:Ehc; simpl in E; [|discriminate].
  rewrite Hq in E. unfold readQuantized in E. simpl in E.
  change (5 + 4) with 9 in E; change (5 + 8) with 13 in E;
    change (5 + 12) with 17 in E; change (5 + 16) with 21 in E;
    change (5 + 20) with 25 in E; change (5 + 24) with 29 in E.
  destruct (getFloat32 raw 5) as [minX|] eqn:E1; simpl in E; [|discriminate].
  destruct (getFloat32 raw 9) as [minY|] eqn:E2; simpl in E; [|discriminate].
  destruct (getFloat32 raw 13) as [minZ|] eqn:E3; simpl in E; [|discriminate].
  destruct (getFloat32 raw 17) as [rangeX|] eqn:E4; simpl in E; [|discriminate].
  destruct (getFloat32 raw 21) as [rangeY|] eqn:E5; simpl in E; [|discriminate].
  destruct (getFloat32 raw 25) as [rangeZ|] eqn:E6; simpl in E; [|discriminate].
  destruct (quantizedLoop raw minX minY minZ rangeX rangeY rangeZ
              (Z.to_nat n) 0 29 (Float32Array_new (n * 3)))
    as [[arr off]|] eqn:EL; simpl in E; [|discriminate].
  injection E as <-.
  exists raw, n, hc, minX, minY, minZ, rangeX, rangeY, rangeZ, arr, off.
  repeat (split; [assumption || reflexivity|]). reflexivity.
Qed.

(** Every successful decode went through the quantized branch and laid
    the records out as [quantized_layout] and [color_layout] say. *)
Lemma decode_layout d pts :
  points (decodePointCloud inflate (Some d)).1 = Some pts ->
  quantized d = true /\
  exists raw n hc,
    rawBytes inflate d = Some raw /\
    getUint32 raw 0 = Some n /\ getUint8 raw 4 = Some hc /\
    numPoints (decodePointCloud inflate (Some d)).1 = n /\
    quantized_layout raw n pts /\
    (if hc =? 1 then
       exists cols, colors (decodePointCloud inflate (Some d)).1 = Some cols /\
                    color_layout raw (positionsEnd d n) n cols
     else colors (decodePointCloud inflate (Some d)).1 = None).
Proof.
  intros Hp. destruct (decode_success d pts Hp) as (Hn & r & Hbody & Hdec).
  destruct (quantized d) eqn:Hq;
    [| rewrite decodeBody_raw_fails in Hbody by exact Hq; discriminate].
  split; [reflexivity|].
  destruct (decodeBody_quantized d r Hq Hbody)
    as (raw & n & hc & minX & minY & minZ & rangeX & rangeY & rangeZ
        & arr & off & Hraw & Hn32 & Hhc & H1 & H2 & H3 & H4 & H5 & H6
        & Hloop & ->).
  rewrite Hdec in Hp |- *. simpl in Hp |- *. injection Hp as ->.
  pose proof (getUint32_Some _ _ _ Hn32) as (_ & _ & Hn0).
  apply quantizedLoop_inv in Hloop as (Hoff & Hlen & _ & Hnew);
    [| lia | rewrite Float32Array_new_length; lia].
  assert (Hplen : Z.of_nat (length pts) = 3 * n).
  { rewrite Hlen, Float32Array_new_length; lia. }
  exists raw, n, hc. repeat (split; [assumption || reflexivity|]).
  split.
  - exists minX, minY, minZ, rangeX, rangeY, rangeZ.
    repeat (split; [assumption|]).
    intros i k Hi Hk. destruct (Hnew i k ltac:(lia) Hk) as (q & Hq1 & Hq2).
    exists q. split; [exact Hq1|].
    replace (3 * i + k) with (3 * (0 + i) + k) by lia. exact Hq2.
  - destruct (hc =? 1); [|reflexivity].
    eexists. split; [reflexivity|].
    destruct (colorsLoop_spec raw off (Z.to_nat (n * 3)) 0
                (Float32Array_new (n * 3)))
      as (Hcl & _ & Hcn); [lia | rewrite Float32Array_new_length; lia |].
    split.
    + rewrite Hcl, Float32Array_new_length; lia.
    + intros i b Hi Hb.
      rewrite Hcn by lia.
      unfold positionsEnd in Hb. rewrite Hq in Hb.
      replace (off + i) with (5 + 24 + 6 * n + i) by lia.
      rewrite Hb. split; [reflexivity | apply (colorChannel_unit b)].
Qed.


(** A quantized payload that holds its bounds and records is decoded. *)
Lemma quantized_payload_decodes d raw n :
  quantized d = true -> num_points d <> 0 ->
  rawBytes inflate d = Some raw ->
  getUint32 raw 0 = Some n ->
  29 + 6 * n <= Z.of_nat (length raw) ->
  exists pts, points (decodePointCloud inflate (Some d)).1 = Some pts.
Proof.
  intros Hq Hn Hraw Hn32 Hlen.
  pose proof (getUint32_Some _ _ _ Hn32) as (_ & _ & Hn0).
  unfold decodePointCloud.
  destruct (Z.eqb_spec (num_points d) 0); [contradiction|].
  unfold decodeBody. rewrite Hraw. simpl. rewrite Hn32. simpl.
  destruct (getUint8_in_range raw 4) as [hc ->]; [lia|]. simpl.
  rewrite Hq. unfold readQuantized, getFloat32.
  repeat match goal with
  | |- context [getUint32 raw ?o] =>
      lazymatch o with
      | 0 => fail
      | _ =>
        let v := fresh "v" in
        let E := fresh "E" in
        destruct (getUint32 raw o) as [v|] eqn:E;
        [ simpl
        | exfalso; revert E; unfold getUint32;
          repeat match goal with
          | |- context [getUint8 raw ?p] =>
              let b := fresh "b" in
              destruct (getUint8_in_range raw p) as [b ->]; [lia|]; simpl
          end; discriminate ]
      end
  end.
  match goal with
  | |- context [quantizedLoop ?a ?b ?c ?e ?f ?g ?h ?fu ?i ?o ?arr] =>
      destruct (quantizedLoop_total a b c e f g h fu i o arr)
        as [[pts off] ->]; [lia | lia |]
  end.
  simpl. eauto.
Qed.

End DecodeFacts.

Import Samples.

(** C7. Decoding an absent payload, or one whose [num_points] is 0,
    returns zero points with [null] positions and colours and logs no
    error, whatever the payload bytes and the flags are. *)
Theorem empty_payload_decodes_to_empty (inflate : bytes -> option bytes) :
  decodePointCloud inflate None =
    ({| points := None; colors := None; numPoints := 0 |}, []) /\
  forall (s : string) (c q : bool),
    decodePointCloud inflate
      (Some {| num_points := 0; data := s; compressed := c; quantized := q |})
    = ({| points := None; colors := None; numPoints := 0 |}, []).
Proof. split; [reflexivity | intros; reflexivity]. Qed.

(** C1. The scenario payload (header [num_points = 2], no colours, raw
    float32 points (0,0,0) and (1,1,1)) is well formed, yet
    [decodePointCloud] does not return the two positions: the
    [Float32Array] view at byte offset 5 is refused and the failure result
    is returned with an error logged. *)
Theorem raw_two_points_not_decoded :
  (exists raw,
     rawBytes noInflate rawTwoPoints = Some raw /\
     getUint32 raw 0 = Some 2 /\ getUint8 raw 4 = Some 0 /\
     mapM (getFloat32 raw) [5; 9; 13; 17; 21; 25] =
       Some [f32_zero; f32_zero; f32_zero; f32_one; f32_one; f32_one]) /\
  decodePointCloud noInflate (Some rawTwoPoints) =
    ({| points := None; colors := None; numPoints := 0 |},
     [decodeErrorMessage]).
Proof.
  split; [eexists; repeat split; vm_compute; reflexivity|].
  vm_compute; reflexivity.
Qed.

(** C2. A quantized payload announcing colours but cut right after its
    position record (35 bytes where 38 are announced) is not turned into
    the failure result: the decoder returns one point whose three colour
    channels are NaN, and logs nothing. *)
Theorem truncated_colors_decode_to_NaN :
  (exists raw,
     rawBytes noInflate quantizedNoColorBytes = Some raw /\
     getUint32 raw 0 = Some 1 /\ getUint8 raw 4 = Some 1 /\
     Z.of_nat (length raw) = 35 /\
     positionsEnd quantizedNoColorBytes 1 + 3 * 1 = 38) /\
  decodePointCloud noInflate (Some quantizedNoColorBytes) =
    ({| points := Some [f32_zero; f32_one; S754_finite false 8388736 (-24)];
        colors := Some [NaN; NaN; NaN];
        numPoints := 1 |}, []).
Proof.
  split; [eexists; repeat split; vm_compute; reflexivity|].
  vm_compute; reflexivity.
Qed.

(** C5. In every quantized payload that is decoded, the three bounds
    pairs are the six float32 values after the header, and coordinate [k]
    of record [i] is [(q / 65535) * range_k + min_k], where [q] is the
    16-bit value at byte [29 + 6 i + 2 k]. *)
Theorem dequantized_coordinates (inflate : bytes -> option bytes)
        (d : PointCloudData) (pts : list f32) :
  quantized d = true ->
  points (decodePointCloud inflate (Some d)).1 = Some pts ->
  exists raw n,
    rawBytes inflate d = Some raw /\ getUint32 raw 0 = Some n /\
    quantized_layout raw n pts.
Proof.
  intros _ Hp.
  destruct (decode_layout inflate d pts Hp)
    as (_ & raw & n & hc & Hraw & Hn & _ & _ & Hlay & _).
  exists raw, n. auto.
Qed.

Lemma dequantized_coordinates_witness :
  exists raw n,
    rawBytes noInflate quantizedOnePoint = Some raw /\
    getUint32 raw 0 = Some n /\
    quantized_layout raw n
      [f32_zero; f32_one; S754_finite false 8388736 (-24)].
Proof.
  apply (dequantized_coordinates noInflate quantizedOnePoint);
    vm_compute; reflexivity.
Defined.

(** The colour bytes that a payload does hold: when the header's
    [has_colors] byte is 1, a decoded payload has [3 * num_points] colour
    channels, and channel [i] is the byte that follows the position data
    at distance [i], divided by 255, in [0, 1], whenever that byte
    exists. *)
Lemma colors_are_bytes_over_255 (inflate : bytes -> option bytes)
        (d : PointCloudData) (pts : list f32) (raw : bytes) :
  points (decodePointCloud inflate (Some d)).1 = Some pts ->
  rawBytes inflate d = Some raw ->
  getUint8 raw 4 = Some 1 ->
  exists n cols,
    getUint32 raw 0 = Some n /\
    colors (decodePointCloud inflate (Some d)).1 = Some cols /\
    color_layout raw (positionsEnd d n) n cols.
Proof.
  intros Hp Hraw Hhc.
  destruct (decode_layout inflate d pts Hp)
    as (_ & raw' & n & hc & Hraw' & Hn & Hhc' & _ & _ & Hcol).
  rewrite Hraw in Hraw'. injection Hraw' as <-.
  rewrite Hhc in Hhc'. injection Hhc' as <-.
  simpl in Hcol. destruct Hcol as (cols & Hc & Hl).
  exists n, cols. auto.
Qed.

Lemma colors_are_bytes_over_255_witness :
  exists n cols,
    getUint32 onePointBytes 0 = Some n /\
    colors (decodePointCloud noInflate (Some quantizedOnePoint)).1
      = Some cols /\
    color_layout onePointBytes (positionsEnd quantizedOnePoint n) n cols.
Proof.
  apply (colors_are_bytes_over_255 noInflate quantizedOnePoint
           [f32_zero; f32_one; S754_finite false 8388736 (-24)]);
    vm_compute; reflexivity.
Defined.

(** C8. With the header's [has_colors] byte at 1, the decoder does not
    always produce channels in [0, 1]: on the payload cut after its
    position record it returns three colour channels, none of which lies
    in [0, 1] (they are NaN), because the colour bytes are read without
    checking that they exist. *)
Theorem announced_colors_outside_unit_interval :
  exists raw cols,
    rawBytes noInflate quantizedNoColorBytes = Some raw /\
    getUint32 raw 0 = Some 1 /\ getUint8 raw 4 = Some 1 /\
    colors (decodePointCloud noInflate (Some quantizedNoColorBytes)).1
      = Some cols /\
    in_unit_interval <$> cols = [false; false; false].
Proof. do 2 eexists. repeat split; vm_compute; reflexivity. Qed.

End CodecFacts.


(* ===================================================================== *)
(** * Facts about the subsampling *)
(* ===================================================================== *)

Module ViewerFacts.
Import Num Platform Codec Viewer Samples CodecFacts.

Lemma ceilDiv_bounds n b :
  1 <= b -> (ceilDiv n b - 1) * b < n <= ceilDiv n b * b.
Proof.
  intros Hb. unfold ceilDiv.
  pose proof (Z.div_mod (- n) b ltac:(lia)) as Hdm.
  pose proof (Z.mod_pos_bound (- n) b ltac:(lia)) as Hm.
  nia.
Qed.

Lemma floorDiv_bounds n s :
  1 <= s -> floorDiv n s * s <= n < (floorDiv n s + 1) * s.
Proof.
  intros Hs. unfold floorDiv.
  pose proof (Z.div_mod n s ltac:(lia)) as Hdm.
  pose proof (Z.mod_pos_bound n s ltac:(lia)) as Hm.
  nia.
Qed.

Lemma stride_facts n b :
  1 <= b -> b < n ->
  2 <= ceilDiv n b /\
  1 <= floorDiv n (ceilDiv n b) <= b.
Proof.
  intros Hb Hn.
  pose proof (ceilDiv_bounds n b Hb) as Hc.
  assert (Hs : 2 <= ceilDiv n b) by nia.
  pose proof (floorDiv_bounds n (ceilDiv n b) ltac:(lia)) as Hf.
  split; [exact Hs|]. split; nia.
Qed.

Lemma copyPoint_spec (src dst : list f32) (i j : Z) :
  0 <= j -> 3 * (j + 1) <= Z.of_nat (length dst) ->
  length (copyPoint src dst i j) = length dst /\
  (forall k, 0 <= k < 3 ->
     at_index (copyPoint src dst i j) (3 * j + k) =
     Some (element src (3 * i + k))) /\
  (forall m, m < 3 * j \/ 3 * j + 3 <= m ->
     at_index (copyPoint src dst i j) m = at_index dst m).
Proof.
  intros Hj Hlen. unfold copyPoint.
  split; [now rewrite !length_insert|]. split.
  - intros k Hk.
    assert (Hk3 : k = 0 \/ k = 1 \/ k = 2) by lia.
    destruct Hk3 as [-> | [-> | ->]].
    + rewrite !at_index_insert_ne by lia.
      replace (3 * j + 0) with (j * 3) by lia.
      replace (3 * i + 0) with (i * 3) by lia.
      apply at_index_insert_eq. lia.
    + rewrite at_index_insert_ne by lia.
      replace (3 * j + 1) with (j * 3 + 1) by lia.
      replace (3 * i + 1) with (i * 3 + 1) by lia.
      apply at_index_insert_eq. rewrite length_insert. lia.
    + replace (3 * j + 2) with (j * 3 + 2) by lia.
      replace (3 * i + 2) with (i * 3 + 2) by lia.
      apply at_index_insert_eq. rewrite !length_insert. lia.
  - intros m Hm. rewrite !at_index_insert_ne by lia. reflexivity.
Qed.


Section Loop.
Variable points : list f32.
Variable colors : option (list f32).
Variables numPoints newNumPoints step : Z.
Hypothesis Hstep : 1 <= step.
Hypothesis Hfit : newNumPoints * step <= numPoints.

Let loop := subsampleLoop points colors numPoints newNumPoints step.

Lemma subsampleLoop_spec (fuel : nat) :
  forall i j newPoints newColors,
    0 <= j -> i = j * step ->
    j + Z.of_nat fuel = newNumPoints ->
    Z.of_nat (length newPoints) = 3 * newNumPoints ->
    strided points step newNumPoints j newPoints
            (loop fuel i j newPoints newColors).1 /\
    match colors, newColors with
    | Some cs, Some nc =>
        Z.of_nat (length nc) = 3 * newNumPoints ->
        exists rc, (loop fuel i j newPoints newColors).2 = Some rc /\
                   strided cs step newNumPoints j nc rc
    | _, _ => (loop fuel i j newPoints newColors).2 = newColors
    end.
Proof.
  induction fuel as [|fuel IH]; intros i j np nc Hj Hi Hfuel Hlen.
  - simpl. split.
    + split; [reflexivity|]. split; [reflexivity | intros; lia].
    + destruct colors as [cs|], nc as [ncl|]; try reflexivity.
      intros _. exists ncl. split; [reflexivity|].
      split; [reflexivity|]. split; [reflexivity | intros; lia].
  - subst loop. simpl.
    assert (Hguard : (i <? numPoints) && (j <? newNumPoints) = true).
    { apply andb_true_intro. split; apply Z.ltb_lt; nia. }
    rewrite Hguard.
    destruct (copyPoint_spec points np i j Hj ltac:(lia))
      as (Hcl & Hcnew & Hcold).
    specialize (IH (i + step) (j + 1) (copyPoint points np i j)
                   (match colors with
                    | Some cs => (fun nc => copyPoint cs nc i j) <$> nc
                    | None => nc
                    end)
                   ltac:(lia) ltac:(lia) ltac:(lia) ltac:(lia)).
    destruct IH as ((Hl & Hold & Hnew) & Hcol).
    split.
    + split; [congruence|]. split.
      * intros m Hm. rewrite Hold by lia. apply Hcold. lia.
      * intros j' k Hj' Hk.
        destruct (Z.eq_dec j' j) as [-> | Hne].
        -- rewrite Hold by lia. rewrite Hcnew by lia.
           do 2 f_equal. lia.
        -- apply Hnew; lia.
    + destruct colors as [cs|]; [|exact Hcol].
      destruct nc as [ncl|]; simpl in Hcol |- *; [|exact Hcol].
      intros Hncl.
      destruct (copyPoint_spec cs ncl i j Hj ltac:(lia))
        as (Hdl & Hdnew & Hdold).
      destruct (Hcol ltac:(lia)) as (rc & Hrc & Hl' & Hold' & Hnew').
      exists rc. split; [exact Hrc|].
      split; [congruence|]. split.
      * intros m Hm. rewrite Hold' by lia. apply Hdold. lia.
      * intros j' k Hj' Hk.
        destruct (Z.eq_dec j' j) as [-> | Hne].
        -- rewrite Hold' by lia. rewrite Hdnew by lia.
           do 2 f_equal. lia.
        -- apply Hnew'; lia.
Qed.

(** More fuel than the [newNumPoints - j] iterations left changes
    nothing: the loop stops on its own guard. *)
Lemma subsampleLoop_fuel (fuel : nat) :
  forall i j newPoints newColors (extra : nat),
    newNumPoints <= j + Z.of_nat fuel ->
    loop (fuel + extra) i j newPoints newColors =
    loop fuel i j newPoints newColors.
Proof.
  induction fuel as [|fuel IH]; intros i j np nc extra Hf.
  - subst loop. destruct extra as [|extra]; [reflexivity|]. simpl.
    assert (Hg : (j <? newNumPoints) = false) by (apply Z.ltb_ge; lia).
    rewrite Hg, andb_false_r. reflexivity.
  - subst loop. simpl.
    destruct ((i <? numPoints) && (j <? newNumPoints)); [|reflexivity].
    apply IH. lia.
Qed.

End Loop.


Lemma strided_every_nth src stride count n dst res :
  1 <= stride -> 0 <= count -> count * stride <= n ->
  Z.of_nat (length src) = 3 * n ->
  Z.of_nat (length dst) = 3 * count ->
  strided src stride count 0 dst res ->
  every_nth stride count src res.
Proof.
  intros Hs Hc Hfit Hsrc Hdst (Hl & _ & Hnew).
  split; [lia|].
  intros j k Hj Hk. rewrite Hnew by lia. unfold element.
  destruct (at_index_in_range src (3 * (j * stride) + k)) as [x ->]; [nia|].
  reflexivity.
Qed.

Lemma subsample_over_budget b points colors n :
  1 <= b -> b < n ->
  Z.of_nat (length points) = 3 * n ->
  (forall cs, colors = Some cs -> Z.of_nat (length cs) = 3 * n) ->
  let stride := ceilDiv n b in
  let r := subsample b points colors n in
  (stride - 1) * b < n <= stride * b /\
  displayedPoints r = floorDiv n stride /\
  every_nth stride (floorDiv n stride) points (shownPoints r) /\
  match colors with
  | Some cs => exists rc, shownColors r = Some rc /\
                          every_nth stride (floorDiv n stride) cs rc
  | None => shownColors r = None
  end.
Proof.
  intros Hb Hn Hlen Hclen. cbv zeta.
  destruct (stride_facts n b Hb Hn) as (Hs & Hf).
  split; [apply ceilDiv_bounds; exact Hb|].
  unfold subsample.
  destruct (Z.ltb_spec b n) as [_|]; [|lia].
  set (stride := ceilDiv n b) in *.
  set (count := floorDiv n stride) in *.
  pose proof (floorDiv_bounds n stride ltac:(lia)) as Hfit.
  fold count in Hfit.
  set (newColors := match colors with
                    | Some _ => Some (Float32Array_new (count * 3))
                    | None => None
                    end).
  destruct (subsampleLoop_spec points colors n count stride
              ltac:(lia) ltac:(lia) (Z.to_nat count) 0 0
              (Float32Array_new (count * 3)) newColors
              ltac:(lia) ltac:(lia) ltac:(lia)
              ltac:(rewrite Float32Array_new_length; lia))
    as (Hpts & Hcols).
  destruct (subsampleLoop points colors n count stride (Z.to_nat count) 0 0
              (Float32Array_new (count * 3)) newColors)
    as [np nc] eqn:Eloop.
  simpl in Hpts, Hcols |- *.
  split; [reflexivity|]. split.
  - eapply strided_every_nth; eauto; try lia.
    rewrite Float32Array_new_length; lia.
  - subst newColors. destruct colors as [cs|]; [|exact Hcols].
    destruct Hcols as (rc & -> & Hrc);
      [rewrite Float32Array_new_length; lia|].
    exists rc. split; [reflexivity|].
    eapply strided_every_nth; eauto; try lia.
    rewrite Float32Array_new_length; lia.
Qed.

(** C3. With more points than the budget, the reduction uses the stride
    [ceil(num_points / budget)] and keeps every stride-th point, and its
    colour when there is one, in the original order:
    [floor(num_points / stride)] points in all. *)
Theorem lod_keeps_every_stride_th
        (budget : Z) (points : list f32) (colors : option (list f32))
        (numPoints : Z) :
  1 <= budget -> budget < numPoints ->
  Z.of_nat (length points) = 3 * numPoints ->
  (forall cs, colors = Some cs -> Z.of_nat (length cs) = 3 * numPoints) ->
  let stride := ceilDiv numPoints budget in
  let r := subsample budget points colors numPoints in
  (stride - 1) * budget < numPoints <= stride * budget /\
  displayedPoints r = floorDiv numPoints stride /\
  every_nth stride (floorDiv numPoints stride) points (shownPoints r) /\
  match colors with
  | Some cs => exists rc, shownColors r = Some rc /\
                          every_nth stride (floorDiv numPoints stride) cs rc
  | None => shownColors r = None
  end.
Proof. exact (subsample_over_budget budget points colors numPoints). Qed.

(** Scenario E for every frame of 100,000 points: with a budget of
    25,000 the result has exactly 25,000 points, every 4th one. *)
Corollary scenario_E (points : list f32) (colors : option (list f32)) :
  Z.of_nat (length points) = 300000 ->
  (forall cs, colors = Some cs -> Z.of_nat (length cs) = 300000) ->
  let r := subsample 25000 points colors 100000 in
  displayedPoints r = 25000 /\
  every_nth 4 25000 points (shownPoints r) /\
  match colors with
  | Some cs => exists rc, shownColors r = Some rc /\ every_nth 4 25000 cs rc
  | None => shownColors r = None
  end.
Proof.
  intros Hl Hc.
  destruct (subsample_over_budget 25000 points colors 100000
              ltac:(lia) ltac:(lia) Hl Hc) as (_ & Hd & Hp & Hcol).
  change (ceilDiv 100000 25000) with 4 in *.
  change (floorDiv 100000 4) with 25000 in *.
  auto.
Qed.

(** C4. For a budget of at least 1 the reduction shows at most [budget]
    points, and a frame within the budget is passed on unchanged. *)
Theorem lod_respects_budget
        (budget : Z) (points : list f32) (colors : option (list f32))
        (numPoints : Z) :
  1 <= budget ->
  let r := subsample budget points colors numPoints in
  displayedPoints r <= budget /\
  (budget < numPoints ->
   Z.of_nat (length (shownPoints r)) = 3 * displayedPoints r) /\
  (numPoints <= budget ->
   r = {| shownPoints := points; shownColors := colors;
          displayedPoints := numPoints |}).
Proof.
  intros Hb. cbv zeta. unfold subsample.
  destruct (Z.ltb_spec budget numPoints) as [Hn | Hn].
  - destruct (stride_facts numPoints budget Hb Hn) as (Hs & Hf).
    set (stride := ceilDiv numPoints budget) in *.
    set (count := floorDiv numPoints stride) in *.
    pose proof (floorDiv_bounds numPoints stride ltac:(lia)) as Hfit.
    fold count in Hfit.
    set (newColors := match colors with
                      | Some _ => Some (Float32Array_new (count * 3))
                      | None => None
                      end).
    destruct (subsampleLoop_spec points colors numPoints count stride
                ltac:(lia) ltac:(lia) (Z.to_nat count) 0 0
                (Float32Array_new (count * 3)) newColors
                ltac:(lia) ltac:(lia) ltac:(lia)
                ltac:(rewrite Float32Array_new_length; lia))
      as ((Hl & _) & _).
    destruct (subsampleLoop points colors numPoints count stride
                (Z.to_nat count) 0 0 (Float32Array_new (count * 3)) newColors)
      as [np nc].
    simpl in Hl |- *.
    split; [lia|]. split; [|lia].
    intros _. rewrite Hl, Float32Array_new_length; lia.
  - simpl. split; [lia|]. split; [lia | reflexivity].
Qed.


Lemma lod_keeps_every_stride_th_witness :
  Z.of_nat (length (ramp 30)) = 3 * 10 /\
  let r := subsample 3 (ramp 30) (Some (ramp 30)) 10 in
  ceilDiv 10 3 = 4 /\
  displayedPoints r = 2 /\
  every_nth 4 2 (ramp 30) (shownPoints r) /\
  exists rc, shownColors r = Some rc /\ every_nth 4 2 (ramp 30) rc.
Proof.
  assert (Hlen : Z.of_nat (length (ramp 30)) = 3 * 10)
    by (vm_compute; reflexivity).
  split; [exact Hlen|].
  destruct (lod_keeps_every_stride_th 3 (ramp 30) (Some (ramp 30)) 10)
    as (_ & Hd & Hp & Hc).
  - lia.
  - lia.
  - exact Hlen.
  - intros cs Hcs. injection Hcs as <-. exact Hlen.
  - split; [reflexivity|]. split; [exact Hd|]. split; [exact Hp | exact Hc].
Defined.

Lemma lod_respects_budget_witness :
  let r := subsample 2 (ramp 15) None 5 in
  displayedPoints r <= 2 /\
  (2 < 5 -> Z.of_nat (length (shownPoints r)) = 3 * displayedPoints r) /\
  (5 <= 2 -> r = {| shownPoints := ramp 15; shownColors := None;
                    displayedPoints := 5 |}).
Proof. apply (lod_respects_budget 2 (ramp 15) None 5). lia. Defined.

End ViewerFacts.


(* ===================================================================== *)
(** * Facts about the display state *)
(* ===================================================================== *)

Module OverlayFacts.
Import Overlay.

Lemma hovered_fold_avoids (sel : gset Z) (hs : list HandInfo) :
  forall acc : gset Z,
    acc ∩ sel = ∅ ->
    fold_left
      (fun ids hand =>
         if truthy (hovered hand) && negb (has sel (hovered hand))
         then add (hovered hand) ids else ids)
      hs acc ∩ sel = ∅.
Proof.
  induction hs as [|hand hs IH]; intros acc Hacc; simpl; [exact Hacc|].
  apply IH.
  destruct (truthy (hovered hand)); simpl; [|exact Hacc].
  destruct (hovered hand) as [z|]; simpl; [|exact Hacc].
  destruct (bool_decide_reflect (z ∈ sel)); simpl; [exact Hacc|].
  set_solver.
Qed.

Lemma hovered_selected_disjoint interaction :
  hoveredIds interaction ∩ selectedIds interaction = ∅.
Proof. unfold hoveredIds. apply hovered_fold_avoids. set_solver. Qed.

Lemma has_disjoint (s t : gset Z) (v : option Z) :
  s ∩ t = ∅ -> has t v && has s v = false.
Proof.
  intros Hd. destruct v as [z|]; [|reflexivity]. simpl.
  destruct (bool_decide_reflect (z ∈ t)); [|reflexivity].
  destruct (bool_decide_reflect (z ∈ s)); [|reflexivity].
  set_solver.
Qed.

(** C10. No object is shown both selected and hovered: in
    [InteractionOverlay] the hovered flag is cleared for selected ids, and
    in [InteractionDemo] the hovered set never contains a selected id. *)
Theorem never_hovered_and_selected
        (objs demoObjects : list SceneObject)
        (interaction : option Interaction) :
  Forall (fun o => isSelected o && isHovered o = false)
         (objectsWithState objs interaction) /\
  hoveredIds interaction ∩ selectedIds interaction = ∅ /\
  Forall (fun '(_, sel, hov) => sel && hov = false)
         (demoShapes demoObjects interaction).
Proof.
  split; [|split].
  - unfold objectsWithState.
    destruct (collect (handStates interaction)) as [sel hov].
    apply Forall_forall. intros o Ho.
    apply elem_of_lookup_imap_1 in Ho as (i & obj & -> & _). simpl.
    destruct (bool_decide (orElse (id obj) i ∈ sel)),
      (bool_decide (orElse (id obj) i ∈ hov)); reflexivity.
  - apply hovered_selected_disjoint.
  - unfold demoShapes. apply Forall_fmap, Forall_forall. intros obj _. simpl.
    apply has_disjoint, hovered_selected_disjoint.
Qed.

End OverlayFacts.


(* ===================================================================== *)
(** * Facts about the interaction engine *)
(* ===================================================================== *)

Module EngineFacts.
Import Engine.

Lemma keeps_refl h st : keeps h st st.
Proof. intros o Ho; exact Ho. Qed.

Lemma try_lock_Some h i st st' :
  try_lock h i st = Some st' ->
  locks st' !! i = Some h /\ forall h', keeps h' st st'.
Proof.
  unfold try_lock. destruct (locks st !! i) as [owner|] eqn:E.
  - destruct (bool_decide_reflect (owner = h)) as [-> | _]; [|discriminate].
    intros [= <-]. split; [exact E | intros h'; apply keeps_refl].
  - intros [= <-]. simpl. split; [apply lookup_insert_eq|].
    intros h' o Ho. simpl. destruct (decide (i = o)) as [-> | Hne].
    + congruence.
    + rewrite lookup_insert_ne by exact Hne. exact Ho.
Qed.

Lemma unlock_keeps h h' i st : h' <> h -> keeps h' st (unlock h i st).
Proof.
  intros Hne o Ho. unfold unlock.
  destruct (locks st !! i) as [owner|] eqn:E; [|exact Ho].
  destruct (bool_decide_reflect (owner = h)) as [-> | _]; [|exact Ho].
  simpl. destruct (decide (i = o)) as [-> | Hio]; [congruence|].
  rewrite lookup_delete_ne by exact Hio. exact Ho.
Qed.

Lemma unlock_ref_keeps h h' r st :
  h' <> h -> keeps h' st (unlock_ref h r st).
Proof.
  intros Hne. destruct r as [i|]; [apply unlock_keeps; exact Hne|].
  apply keeps_refl.
Qed.

(** Whatever the reading, the store after leaving [dragging] keeps the
    locks of the other hand. *)
Lemma drop_keeps reading h h' r st :
  h' <> h ->
  keeps h' st match reading with
              | release_on_drop => unlock_ref h r st
              | hold_while_selected => st
              end.
Proof.
  intros Hne. destruct reading; [apply unlock_ref_keeps; exact Hne|].
  apply keeps_refl.
Qed.

Ltac not_dragging := intros Hs; simpl in Hs; discriminate Hs.

(** ** Dragging is exclusive under both readings *)

Lemma observe_sound reading h pos g hs st :
  owns h hs st ->
  owns h (observe reading h pos g hs st).1 (observe reading h pos g hs st).2 /\
  forall h', h' <> h -> keeps h' st (observe reading h pos g hs st).2.
Proof.
  intros Hown. unfold observe.
  set (hs1 := seen hs pos g).
  assert (Hown1 : owns h hs1 st) by exact Hown.
  clearbody hs1.
  destruct (is_stale (hovered hs1) st || is_stale (selected hs1) st).
  { simpl. split; [not_dragging|].
    intros h' Hne. apply unlock_ref_keeps; exact Hne. }
  destruct (state hs1) eqn:Est.
  - (* idle *)
    destruct (hit_test pos (objects st)); [destruct (is_fist g)|]; simpl;
      (split; [intros Hs; simpl in Hs; congruence
              | intros; apply keeps_refl]).
  - (* hover *)
    destruct (hit_test pos (objects st)); simpl;
      [| split; [not_dragging | intros; apply keeps_refl]].
    destruct (is_fist g);
      [| simpl; split; [intros Hs; congruence | intros; apply keeps_refl]].
    destruct (hovered hs1) as [o|];
      [| simpl; split; [intros Hs; congruence | intros; apply keeps_refl]].
    destruct (try_lock h o st) as [st'|] eqn:El;
      [| simpl; split; [intros Hs; congruence | intros; apply keeps_refl]].
    apply try_lock_Some in El as [Hl Hk]. simpl. split.
    + intros _. exists o. split; [reflexivity | exact Hl].
    + intros h' _. apply Hk.
  - (* selecting *)
    simpl. split; [intros Hs; congruence | intros; apply keeps_refl].
  - (* selected *)
    destruct (is_fist g && bool_decide (hit_test pos (objects st) = selected hs1)).
    + destruct (selected hs1) as [o|];
        [| simpl; split; [intros Hs; congruence | intros; apply keeps_refl]].
      destruct (try_lock h o st) as [st'|] eqn:El;
        [| simpl; split; [intros Hs; congruence | intros; apply keeps_refl]].
      apply try_lock_Some in El as [Hl Hk]. simpl. split.
      * intros _. exists o. split; [reflexivity | exact Hl].
      * intros h' _. apply Hk.
    + destruct (bool_decide (g = open_palm)
                && negb (bool_decide (hit_test pos (objects st) = selected hs1)));
        [| simpl; split; [intros Hs; congruence | intros; apply keeps_refl]].
      destruct (hit_test pos (objects st)); simpl;
        (split; [not_dragging | intros h' Hne; apply unlock_ref_keeps; exact Hne]).
  - (* dragging *)
    destruct (is_fist g).
    + destruct (selected hs1) as [o|] eqn:Esel; simpl.
      * split; [| intros h' _ o' Ho'; exact Ho'].
        intros _. destruct (Hown1 Est) as (o' & Ho' & Hl).
        exists o'. split; [congruence | exact Hl].
      * split; [| intros; apply keeps_refl].
        intros _. destruct (Hown1 Est) as (o' & Ho' & Hl). congruence.
    + simpl. split; [not_dragging|].
      intros h' Hne. apply drop_keeps; exact Hne.
  - simpl. split; [intros Hs; congruence | intros; apply keeps_refl].
  - simpl. split; [intros Hs; congruence | intros; apply keeps_refl].
  - simpl. split; [intros Hs; congruence | intros; apply keeps_refl].
Qed.

(** ** Selection is exclusive when the lock is held through [selected] *)

Lemma holds_same h hs hs' st st' :
  holds h hs st -> selected hs' = selected hs -> locks st' = locks st ->
  holds h hs' st'.
Proof. intros H Hs Hl o Ho. rewrite Hl. apply H. congruence. Qed.

Lemma holds_none h hs st : selected hs = None -> holds h hs st.
Proof. intros Hs o Ho. congruence. Qed.

Lemma holds_locked h hs st o :
  selected hs = Some o -> locks st !! o = Some h -> holds h hs st.
Proof. intros Hs Hl o' Ho'. congruence. Qed.

Lemma observe_holds h pos g hs st :
  holds h hs st ->
  holds h (observe hold_while_selected h pos g hs st).1
          (observe hold_while_selected h pos g hs st).2.
Proof.
  intros Hh. unfold observe.
  set (hs1 := seen hs pos g).
  assert (Hh1 : holds h hs1 st) by exact Hh.
  clearbody hs1.
  destruct (is_stale (hovered hs1) st || is_stale (selected hs1) st).
  { simpl. apply holds_none. reflexivity. }
  destruct (state hs1) eqn:Est.
  - destruct (hit_test pos (objects st)); [destruct (is_fist g)|]; simpl;
      first [exact Hh1 | apply holds_none; reflexivity].
  - destruct (hit_test pos (objects st)); simpl;
      [| eapply holds_same; [exact Hh1 | reflexivity | reflexivity]].
    destruct (is_fist g); [|exact Hh1].
    destruct (hovered hs1) as [o|]; [|exact Hh1].
    destruct (try_lock h o st) as [st'|] eqn:El; [|exact Hh1].
    apply try_lock_Some in El as [Hl _]. simpl.
    eapply holds_locked; [reflexivity | exact Hl].
  - exact Hh1.
  - destruct (is_fist g && bool_decide (hit_test pos (objects st) = selected hs1)).
    + destruct (selected hs1) as [o|]; [|exact Hh1].
      destruct (try_lock h o st) as [st'|] eqn:El; [|exact Hh1].
      apply try_lock_Some in El as [Hl _]. simpl.
      eapply holds_locked; [reflexivity | exact Hl].
    + destruct (bool_decide (g = open_palm)
                && negb (bool_decide (hit_test pos (objects st) = selected hs1)));
        [|exact Hh1].
      destruct (hit_test pos (objects st)); simpl;
        apply holds_none; reflexivity.
  - destruct (is_fist g).
    + destruct (selected hs1) as [o|] eqn:Esel; simpl; [|exact Hh1].
      eapply holds_same; [exact Hh1 | reflexivity | reflexivity].
    + simpl. eapply holds_same; [exact Hh1 | reflexivity | reflexivity].
  - exact Hh1.
  - exact Hh1.
  - exact Hh1.
Qed.

Lemma holds_keeps h hs st st' : holds h hs st -> keeps h st st' -> holds h hs st'.
Proof. intros Hh Hk o Ho. apply Hk, Hh, Ho. Qed.

Lemma owns_keeps h hs st st' : owns h hs st -> keeps h st st' -> owns h hs st'.
Proof.
  intros Ho Hk Hs. destruct (Ho Hs) as (o & Hsel & Hl).
  exists o. split; [exact Hsel | apply Hk; exact Hl].
Qed.

Lemma owns_idle h hs st : state hs = s_idle -> owns h hs st.
Proof. intros Hs Hd. congruence. Qed.

Section Ticks.
Variable reading : Reading.
Variable grace : nat.

Lemma hand_tick_sound h upd hs st :
  owns h hs st ->
  owns h (hand_tick reading grace h upd hs st).1
         (hand_tick reading grace h upd hs st).2 /\
  forall h', h' <> h -> keeps h' st (hand_tick reading grace h upd hs st).2.
Proof.
  intros Hown. unfold hand_tick. destruct upd as [[pos g]|].
  - apply observe_sound; exact Hown.
  - destruct (grace <? unseen (missed hs))%nat; simpl.
    + split; [not_dragging|].
      intros h' Hne. apply unlock_ref_keeps; exact Hne.
    + split; [exact Hown | intros; apply keeps_refl].
Qed.

Lemma tick_consistent updL updR w :
  consistent w -> consistent (tick reading grace updL updR w).
Proof.
  intros [HL HR]. unfold tick.
  destruct (hand_tick_sound Left updL (left w) (store w) HL) as [HL1 HK1].
  destruct (hand_tick reading grace Left updL (left w) (store w)) as [l st1].
  simpl in HL1, HK1.
  assert (HR1 : owns Right (right w) st1)
    by (eapply owns_keeps; [exact HR | apply HK1; discriminate]).
  destruct (hand_tick_sound Right updR (right w) st1 HR1) as [HR2 HK2].
  destruct (hand_tick reading grace Right updR (right w) st1) as [r st2].
  simpl in HR2, HK2 |- *. split; simpl.
  - eapply owns_keeps; [exact HL1 | apply HK2; discriminate].
  - exact HR2.
Qed.

Lemma handle_consistent w r :
  consistent w -> consistent (handle reading grace w r).
Proof.
  intros Hw. destruct r as [updL updR | k box | |]; simpl.
  - apply tick_consistent; exact Hw.
  - exact Hw.
  - exact Hw.
  - split; apply owns_idle; reflexivity.
Qed.

Lemma run_consistent rs : consistent (run reading grace rs).
Proof.
  unfold run.
  assert (H0 : consistent initial) by (split; apply owns_idle; reflexivity).
  revert H0. generalize initial.
  induction rs as [|r rs IH]; intros w Hw; simpl; [exact Hw|].
  apply IH, handle_consistent, Hw.
Qed.

End Ticks.

Section HeldTicks.
Variable grace : nat.

Lemma hand_tick_holds h upd hs st :
  holds h hs st ->
  holds h (hand_tick hold_while_selected grace h upd hs st).1
          (hand_tick hold_while_selected grace h upd hs st).2.
Proof.
  intros Hh. unfold hand_tick. destruct upd as [[pos g]|].
  - apply observe_holds; exact Hh.
  - destruct (grace <? unseen (missed hs))%nat; simpl.
    + apply holds_none. reflexivity.
    + exact Hh.
Qed.

(** Any hand's step keeps the locks of the other hand. *)
Lemma hand_tick_keeps_other h h' upd hs st :
  h' <> h ->
  keeps h' st (hand_tick hold_while_selected grace h upd hs st).2.
Proof.
  intros Hne. unfold hand_tick. destruct upd as [[pos g]|].
  - unfold observe.
    set (hs1 := seen hs pos g). clearbody hs1.
    repeat first
      [ progress simpl
      | apply keeps_refl
      | apply unlock_ref_keeps; exact Hne
      | match goal with
        | |- context [try_lock ?a ?b ?c] =>
            let E := fresh "E" in
            destruct (try_lock a b c) eqn:E;
            [apply try_lock_Some in E as [_ E]|]
        | |- context [match ?x with _ => _ end] => destruct x
        | |- context [if ?x then _ else _] => destruct x
        end
      | match goal with H : forall h', keeps h' _ _ |- _ => apply H end
      | intros ? ?; assumption ].
  - destruct (grace <? unseen (missed hs))%nat; simpl;
      [apply unlock_ref_keeps; exact Hne | apply keeps_refl].
Qed.

Lemma tick_exclusive updL updR w :
  exclusive w -> exclusive (tick hold_while_selected grace updL updR w).
Proof.
  intros [HL HR]. unfold tick.
  pose proof (hand_tick_holds Left updL (left w) (store w) HL) as HL1.
  pose proof (hand_tick_keeps_other Left Right updL (left w) (store w)
                ltac:(discriminate)) as HK1.
  destruct (hand_tick hold_while_selected grace Left updL (left w) (store w))
    as [l st1].
  simpl in HL1, HK1.
  assert (HR1 : holds Right (right w) st1)
    by (eapply holds_keeps; [exact HR | exact HK1]).
  pose proof (hand_tick_holds Right updR (right w) st1 HR1) as HR2.
  pose proof (hand_tick_keeps_other Right Left updR (right w) st1
                ltac:(discriminate)) as HK2.
  destruct (hand_tick hold_while_selected grace Right updR (right w) st1)
    as [r st2].
  simpl in HR2, HK2 |- *. split; simpl.
  - eapply holds_keeps; [exact HL1 | exact HK2].
  - exact HR2.
Qed.

Lemma handle_exclusive w r :
  exclusive w -> exclusive (handle hold_while_selected grace w r).
Proof.
  intros Hw. destruct r as [updL updR | k box | |]; simpl.
  - apply tick_exclusive; exact Hw.
  - exact Hw.
  - exact Hw.
  - split; apply holds_none; reflexivity.
Qed.

Lemma run_exclusive rs : exclusive (run hold_while_selected grace rs).
Proof.
  unfold run.
  assert (H0 : exclusive initial) by (split; apply holds_none; reflexivity).
  revert H0. generalize initial.
  induction rs as [|r rs IH]; intros w Hw; simpl; [exact Hw|].
  apply IH, handle_exclusive, Hw.
Qed.

End HeldTicks.

Import Samples.

(** Under both readings no object is dragged by both hands: a dragging
    hand owns the lock of its object, and a lock has one owner. *)
Lemma dragging_is_exclusive (reading : Reading) (grace : nat)
      (rs : list Request) (o : Z) :
  is_dragging (left (run reading grace rs)) o
  && is_dragging (right (run reading grace rs)) o = false.
Proof.
  destruct (run_consistent reading grace rs) as [HL HR].
  unfold is_dragging.
  destruct (bool_decide_reflect (state (left (run reading grace rs)) = s_dragging))
    as [EL|]; [|reflexivity].
  destruct (bool_decide_reflect (selected (left (run reading grace rs)) = Some o))
    as [SL|]; [|reflexivity].
  destruct (bool_decide_reflect (state (right (run reading grace rs)) = s_dragging))
    as [ER|]; [|reflexivity].
  destruct (bool_decide_reflect (selected (right (run reading grace rs)) = Some o))
    as [SR|]; [|reflexivity].
  destruct (HL EL) as (o1 & H1 & L1). destruct (HR ER) as (o2 & H2 & L2).
  rewrite SL in H1. rewrite SR in H2.
  injection H1 as <-. injection H2 as <-.
  rewrite L1 in L2. discriminate L2.
Qed.

(** When the lock is kept until the hand leaves [selected] (arbitration
    paragraph), no object id is selected by both hands, after any
    sequence of ticks and store requests. *)
Lemma selection_is_exclusive_when_lock_is_held
      (grace : nat) (rs : list Request) (o : Z) :
  holds_selected (left (run hold_while_selected grace rs)) o
  && holds_selected (right (run hold_while_selected grace rs)) o = false.
Proof.
  destruct (run_exclusive grace rs) as [HL HR].
  unfold holds_selected.
  destruct (bool_decide_reflect
              (selected (left (run hold_while_selected grace rs)) = Some o))
    as [SL|]; [|reflexivity].
  destruct (bool_decide_reflect
              (selected (right (run hold_while_selected grace rs)) = Some o))
    as [SR|]; [|reflexivity].
  pose proof (HL o SL) as L1. pose proof (HR o SR) as L2.
  rewrite L1 in L2. discriminate L2.
Qed.

(** When the lock is released on leaving [dragging] (transition table),
    [sharedSelection] ends with the left hand in [selected] and the right
    hand in [dragging], both holding object 1 as selected; with the lock
    kept, the same requests leave the right hand hovering. *)
Lemma selection_is_shared_when_lock_is_dropped :
  (let w := run release_on_drop 3 sharedSelection in
   state (left w) = s_selected /\ selected (left w) = Some 1 /\
   state (right w) = s_dragging /\ selected (right w) = Some 1) /\
  (let w := run hold_while_selected 3 sharedSelection in
   state (left w) = s_selected /\ selected (left w) = Some 1 /\
   state (right w) = s_hover /\ selected (right w) = None).
Proof. vm_compute. repeat split; reflexivity. Qed.

End EngineFacts.


(* ===================================================================== *)
(** * More facts about numbers *)
(* ===================================================================== *)

Module FloatFacts.
Import Num Platform Codec Viewer NumExtra.

Lemma iter_pos_nat {A} (f : A -> A) (p : positive) (x : A) :
  SpecFloat.iter_pos f p x = Nat.iter (Pos.to_nat p) f x.
Proof.
  revert x. induction p as [p IH | p IH |]; intros x;
    cbn [SpecFloat.iter_pos].
  - rewrite !IH, Pos2Nat.inj_xI.
    replace (S (2 * Pos.to_nat p))
      with (Pos.to_nat p + (Pos.to_nat p + 1))%nat by lia.
    rewrite !Nat.iter_add. reflexivity.
  - rewrite !IH, Pos2Nat.inj_xO.
    replace (2 * Pos.to_nat p)%nat
      with (Pos.to_nat p + Pos.to_nat p)%nat by lia.
    rewrite Nat.iter_add. reflexivity.
  - reflexivity.
Qed.

Lemma pos_iter_nat {A} (f : A -> A) (p : positive) (x : A) :
  Pos.iter f x p = Nat.iter (Pos.to_nat p) f x.
Proof.
  rewrite Pos2Nat.inj_iter. reflexivity.
Qed.

Lemma shr_shl_nat (n : nat) (m : positive) :
  Nat.iter n shr_1
    {| shr_m := Zpos (Nat.iter n xO m); shr_r := false; shr_s := false |}
  = {| shr_m := Zpos m; shr_r := false; shr_s := false |}.
Proof.
  revert m. induction n as [|n IH]; intros m; [reflexivity|].
  rewrite Nat.iter_succ_r. simpl. apply IH.
Qed.

Lemma digits_shl_nat (n : nat) (m : positive) :
  Zpos (digits2_pos (Nat.iter n xO m)) = Zpos (digits2_pos m) + Z.of_nat n.
Proof.
  induction n as [|n IH]; [simpl; lia|].
  simpl Nat.iter. simpl digits2_pos. rewrite Pos2Z.inj_succ, IH. lia.
Qed.


Lemma digits_shl (p m : positive) :
  Zpos (digits2_pos (Pos.iter xO m p)) = Zpos (digits2_pos m) + Zpos p.
Proof.
  rewrite pos_iter_nat, digits_shl_nat, positive_nat_Z. reflexivity.
Qed.

Lemma shr_shl (p m : positive) :
  SpecFloat.iter_pos shr_1 p
    {| shr_m := Zpos (Pos.iter xO m p); shr_r := false; shr_s := false |}
  = {| shr_m := Zpos m; shr_r := false; shr_s := false |}.
Proof. rewrite iter_pos_nat, pos_iter_nat. apply shr_shl_nat. Qed.

(** A mantissa that already sits at its canonical exponent is left
    alone by rounding. *)
Lemma round_aux_exact prec emax s m e :
  fexp prec emax (Zpos (digits2_pos m) + e) = e ->
  e <= emax - prec ->
  binary_round_aux prec emax s (Zpos m) e loc_Exact = S754_finite s m e.
Proof.
  intros Hf He. unfold binary_round_aux, shr_fexp.
  cbn [Zdigits2 shr_record_of_loc]. rewrite Hf, Z.sub_diag.
  cbn [shr shr_m loc_of_shr_record round_nearest_even].
  cbn [Zdigits2 shr_record_of_loc]. rewrite Hf, Z.sub_diag.
  cbn [shr shr_m].
  destruct (Z.leb_spec e (emax - prec)); [reflexivity | lia].
Qed.

(** A mantissa shifted left by [p] bits is shifted back exactly. *)
Lemma round_aux_shifted prec emax s m e p :
  fexp prec emax (Zpos (digits2_pos m) + e) = e ->
  e <= emax - prec ->
  binary_round_aux prec emax s (Zpos (Pos.iter xO m p)) (e - Zpos p) loc_Exact
  = S754_finite s m e.
Proof.
  intros Hf He. unfold binary_round_aux, shr_fexp.
  cbn [Zdigits2 shr_record_of_loc]. rewrite digits_shl.
  replace (Zpos (digits2_pos m) + Zpos p + (e - Zpos p))
    with (Zpos (digits2_pos m) + e) by lia.
  rewrite Hf.
  replace (e - (e - Zpos p)) with (Zpos p) by lia.
  cbn [shr]. rewrite shr_shl.
  cbn [shr_m loc_of_shr_record round_nearest_even].
  replace (e - Zpos p + Zpos p) with e by lia.
  cbn [Zdigits2 shr_record_of_loc]. rewrite Hf, Z.sub_diag.
  cbn [shr shr_m].
  destruct (Z.leb_spec e (emax - prec)); [reflexivity | lia].
Qed.

Lemma bounded32 m e :
  bounded 24 128 m e = true ->
  1 <= Zpos (digits2_pos m) <= 24 /\ -149 <= e <= 104 /\
  fexp 24 128 (Zpos (digits2_pos m) + e) = e.
Proof.
  unfold bounded, canonical_mantissa. intros H.
  apply andb_true_iff in H as [H1 H2].
  apply Z.eqb_eq in H1. apply Z.leb_le in H2.
  split; [|split; [|exact H1]];
    unfold fexp, emin in H1; lia.
Qed.

Lemma f32_load_finite s m e :
  bounded 24 128 m e = true ->
  f32_load (S754_finite s m e) =
  S754_finite s (Pos.iter xO m (Z.to_pos (53 - Zpos (digits2_pos m))))
                (e - Zpos (Z.to_pos (53 - Zpos (digits2_pos m)))).
Proof.
  intros Hb. destruct (bounded32 m e Hb) as (Hd & He & Hf).
  set (d := Zpos (digits2_pos m)) in *.
  set (p := Z.to_pos (53 - d)).
  assert (Hp : Zpos p = 53 - d) by (apply Z2Pos.id; lia).
  unfold f32_load, binary_round.
  assert (Hf53 : fexp 53 1024 (d + e) = e - Zpos p)
    by (unfold fexp, emin; lia).
  fold d. rewrite Hf53. unfold shl_align.
  replace (e - Zpos p - e) with (Zneg p) by lia.
  apply round_aux_exact.
  - rewrite digits_shl. fold d. unfold fexp, emin. lia.
  - lia.
Qed.

(** Reading a float32 as a Number and storing it back is the identity. *)
Lemma f32_store_load (x : f32) :
  valid_binary 24 128 x = true -> f32_store (f32_load x) = x.
Proof.
  destruct x as [s | s | | s m e]; try reflexivity.
  intros Hb. simpl in Hb. rewrite (f32_load_finite s m e Hb).
  destruct (bounded32 m e Hb) as (Hd & He & Hf).
  set (d := Zpos (digits2_pos m)) in *.
  set (p := Z.to_pos (53 - d)).
  assert (Hp : Zpos p = 53 - d) by (apply Z2Pos.id; lia).
  unfold f32_store, binary_round.
  rewrite digits_shl. fold d.
  replace (d + Zpos p + (e - Zpos p)) with (d + e) by lia.
  rewrite Hf. unfold shl_align.
  replace (e - (e - Zpos p)) with (Zpos p) by lia.
  apply round_aux_shifted; [exact Hf | lia].
Qed.


Lemma mul_one_load (x : f32) :
  valid_binary 24 128 x = true ->
  mul (S754_finite false 4503599627370496 (-52)) (f32_load x) = f32_load x.
Proof.
  destruct x as [s | s | | s m e]; try reflexivity.
  intros Hb. simpl in Hb. rewrite (f32_load_finite s m e Hb).
  destruct (bounded32 m e Hb) as (Hd & He & Hf).
  set (d := Zpos (digits2_pos m)) in *.
  set (p := Z.to_pos (53 - d)).
  assert (Hp : Zpos p = 53 - d) by (apply Z2Pos.id; lia).
  set (mz := Pos.iter xO m p). set (ez := e - Zpos p).
  unfold mul, SFmul. cbn [xorb].
  change (Pos.mul 4503599627370496 mz) with (Pos.iter xO mz 52).
  replace (-52 + ez) with (ez - Zpos 52) by lia.
  apply round_aux_shifted.
  - subst mz. rewrite digits_shl. fold d. unfold fexp, emin. lia.
  - lia.
Qed.

Lemma SFeqb_refl (x : spec_float) : x <> S754_nan -> SFeqb x x = true.
Proof.
  destruct x as [s | s | | s m e]; intros Hn; try reflexivity.
  - destruct s; reflexivity.
  - contradiction.
  - unfold SFeqb, SFcompare.
    rewrite Z.compare_refl, Pos.compare_cont_refl.
    destruct s; reflexivity.
Qed.

(** X18. Copying a coordinate from one [Float32Array] to another through
    a JavaScript Number loses nothing: the stored float32 is the source
    float32, and a read outside the source stores NaN. *)
Theorem float32_copy_is_exact (src : list f32) (k : Z) :
  Forall (fun x => valid_binary 24 128 x = true) src ->
  copiedElement src k = element src k.
Proof.
  intros Hv. unfold copiedElement, element.
  destruct (at_index src k) as [x|] eqn:E; [|reflexivity].
  simpl. apply f32_store_load.
  rewrite Forall_forall in Hv. apply Hv.
  unfold at_index in E. destruct (k <? 0); [discriminate|].
  eapply list_elem_of_lookup_2. exact E.
Qed.

Lemma float32_copy_is_exact_witness :
  copiedElement [f32_zero; f32_one; S754_finite true 12582912 (-22)] 2
  = element [f32_zero; f32_one; S754_finite true 12582912 (-22)] 2.
Proof.
  apply (float32_copy_is_exact
           [f32_zero; f32_one; S754_finite true 12582912 (-22)] 2).
  repeat constructor.
Defined.

(** X19. Dequantization reproduces both ends of the bounding box: the
    16-bit value 0 decodes to [min] itself, and 65535 to the float32
    nearest to the binary64 sum [range + min]. *)
Theorem dequantize_reaches_both_bounds (range min : f32) :
  valid_binary 24 128 range = true ->
  valid_binary 24 128 min = true ->
  is_finite range = true ->
  min <> S754_nan ->
  SFeqb (dequantize 0 range min) min = true /\
  dequantize 65535 range min = f32_store (add (f32_load range) (f32_load min)).
Proof.
  intros Hvr Hvm Hfr Hmn. split.
  - unfold dequantize.
    change (div (of_int 0) (of_int maxVal)) with (S754_zero false).
    assert (Hz : exists sz, mul (S754_zero false) (f32_load range) = S754_zero sz).
    { destruct range as [s | s | | s m e]; try discriminate.
      - exists s. reflexivity.
      - simpl in Hvr. rewrite (f32_load_finite s m e Hvr).
        exists s. reflexivity. }
    destruct Hz as [sz ->].
    destruct min as [s | s | | s m e].
    + simpl. destruct sz, s; reflexivity.
    + simpl. destruct s; reflexivity.
    + contradiction.
    + simpl in Hvm.
      assert (Hadd : add (S754_zero sz) (f32_load (S754_finite s m e))
                     = f32_load (S754_finite s m e)).
      { rewrite (f32_load_finite s m e Hvm). reflexivity. }
      rewrite Hadd, f32_store_load by exact Hvm.
      apply SFeqb_refl. discriminate.
  - unfold dequantize.
    change (div (of_int 65535) (of_int maxVal))
      with (S754_finite false 4503599627370496 (-52)).
    rewrite mul_one_load by exact Hvr. reflexivity.
Qed.

Lemma dequantize_reaches_both_bounds_witness :
  SFeqb (dequantize 0 f32_one (S754_finite true 12582912 (-22)))
        (S754_finite true 12582912 (-22)) = true /\
  dequantize 65535 f32_one (S754_finite true 12582912 (-22))
  = f32_store (add (f32_load f32_one)
                   (f32_load (S754_finite true 12582912 (-22)))).
Proof.
  apply (dequantize_reaches_both_bounds f32_one
           (S754_finite true 12582912 (-22))).
  - reflexivity.
  - reflexivity.
  - reflexivity.
  - discriminate.
Defined.

End FloatFacts.


(* ===================================================================== *)
(** * More facts about the wire codec *)
(* ===================================================================== *)

Module CodecMore.
Import Num Platform Codec Samples MoreSamples CodecFacts.

Section More.
Variable inflate : bytes -> option bytes.

Lemma decodeBody_points d r :
  decodeBody inflate d = Some r -> exists pts, points r = Some pts.
Proof.
  unfold decodeBody. intros E.
  destruct (rawBytes inflate d) as [raw|]; simpl in E; [|discriminate].
  destruct (getUint32 raw 0) as [n|]; simpl in E; [|discriminate].
  destruct (getUint8 raw 4) as [hc|]; simpl in E; [|discriminate].
  match type of E with
  | context [mbind _ ?m] => destruct m as [[pts off]|]
  end; simpl in E; [|discriminate].
  injection E as <-. exists pts. reflexivity.
Qed.

Lemma failure_is_logged d :
  num_points d <> 0 ->
  (forall pts, points (decodePointCloud inflate (Some d)).1 <> Some pts) ->
  decodePointCloud inflate (Some d) = (emptyResult, [decodeErrorMessage]).
Proof.
  intros Hn Hno. unfold decodePointCloud in *.
  destruct (Z.eqb_spec (num_points d) 0); [contradiction|].
  destruct (decodeBody inflate d) as [r|] eqn:E; [|reflexivity].
  destruct (decodeBody_points d r E) as [pts Hp].
  exfalso. apply (Hno pts). exact Hp.
Qed.

Lemma success_needs_records d pts :
  points (decodePointCloud inflate (Some d)).1 = Some pts ->
  quantized d = true /\
  exists raw n, rawBytes inflate d = Some raw /\ getUint32 raw 0 = Some n /\
                29 + 6 * n <= Z.of_nat (length raw).
Proof.
  intros Hp.
  destruct (decode_layout inflate d pts Hp)
    as (Hq & raw & n & hc & Hraw & Hn & _ & _ & Hlay & _).
  split; [exact Hq|]. exists raw, n. split; [exact Hraw|]. split; [exact Hn|].
  destruct Hlay as (minX & minY & minZ & rangeX & rangeY & rangeZ
                    & _ & _ & _ & _ & _ & H25 & _ & Hrec).
  pose proof (getUint32_Some _ _ _ Hn) as (_ & _ & Hn0).
  destruct (Z.eq_dec n 0) as [-> | Hnz].
  - unfold getFloat32 in H25.
    destruct (getUint32 raw 25) as [w|] eqn:E; [|discriminate].
    apply getUint32_Some in E. lia.
  - destruct (Hrec (n - 1) 2 ltac:(lia) ltac:(lia)) as (q & Hq16 & _).
    apply getUint16_Some in Hq16. lia.
Qed.

End More.

(** X1. A payload with a non-zero [num_points] field is decoded exactly
    when it is quantized, its base64 text and optional compression can be
    undone, and it holds the header, the six bounds and the [n] position
    records announced by the header; then nothing is logged.  In every
    other case the failure result is returned and one error is logged. *)
Theorem decode_succeeds_iff_records_present
        (inflate : bytes -> option bytes) (d : PointCloudData) :
  num_points d <> 0 ->
  let complete :=
    quantized d = true /\
    exists raw n, rawBytes inflate d = Some raw /\
                  getUint32 raw 0 = Some n /\
                  29 + 6 * n <= Z.of_nat (length raw) in
  (complete ->
   exists pts, points (decodePointCloud inflate (Some d)).1 = Some pts /\
               (decodePointCloud inflate (Some d)).2 = []) /\
  (~ complete ->
   decodePointCloud inflate (Some d) =
     ({| points := None; colors := None; numPoints := 0 |},
      [decodeErrorMessage])).
Proof.
  intros Hn complete. split.
  - intros (Hq & raw & n & Hraw & Hn32 & Hlen).
    destruct (quantized_payload_decodes inflate d raw n Hq Hn Hraw Hn32 Hlen)
      as [pts Hp].
    exists pts. split; [exact Hp|].
    destruct (decode_success inflate d pts Hp) as (_ & r & _ & ->).
    reflexivity.
  - intros Hnot. apply failure_is_logged; [exact Hn|].
    intros pts Hp. apply Hnot, (success_needs_records inflate d pts Hp).
Qed.

Lemma decode_succeeds_iff_records_present_witness :
  num_points quantizedOnePoint <> 0 /\
  exists pts,
    points (decodePointCloud noInflate (Some quantizedOnePoint)).1 = Some pts /\
    (decodePointCloud noInflate (Some quantizedOnePoint)).2 = [].
Proof.
  assert (Hn : num_points quantizedOnePoint <> 0) by (vm_compute; discriminate).
  split; [exact Hn|].
  apply (decode_succeeds_iff_records_present noInflate quantizedOnePoint Hn).
  split; [reflexivity|].
  exists onePointBytes, 1.
  split; [vm_compute; reflexivity|].
  split; [vm_compute; reflexivity|].
  vm_compute. discriminate.
Defined.


(** X2. Whenever positions are returned, nothing was logged, the returned
    count is the 32-bit count of the header, the positions array holds
    three entries per point, and [colors] is [null] exactly when the
    header's colour byte is not 1, holding three entries per point
    otherwise. *)
Theorem decoded_arrays_match_header
        (inflate : bytes -> option bytes) (d : PointCloudData)
        (pts : list f32) :
  let r := (decodePointCloud inflate (Some d)).1 in
  points r = Some pts ->
  (decodePointCloud inflate (Some d)).2 = [] /\
  exists raw hc,
    rawBytes inflate d = Some raw /\
    getUint32 raw 0 = Some (numPoints r) /\
    getUint8 raw 4 = Some hc /\
    0 <= numPoints r < 4294967296 /\
    Z.of_nat (length pts) = 3 * numPoints r /\
    (if hc =? 1
     then exists cols, colors r = Some cols /\
                       Z.of_nat (length cols) = 3 * numPoints r
     else colors r = None).
Proof.
  intros r Hp. subst r.
  destruct (decode_success inflate d pts Hp) as (_ & r & _ & Hdec).
  destruct (decode_layout inflate d pts Hp)
    as (_ & raw & n & hc & Hraw & Hn & Hhc & Hnum & Hlay & Hcol).
  split; [rewrite Hdec; reflexivity|].
  exists raw, hc. rewrite Hnum.
  pose proof (getUint32_Some _ _ _ Hn) as (_ & _ & Hn0).
  destruct Hlay as (? & ? & ? & ? & ? & ? & _ & _ & _ & _ & _ & _ & Hlen & _).
  repeat (split; [assumption || lia|]).
  destruct (hc =? 1); [|exact Hcol].
  destruct Hcol as (cols & Hc & Hl & _). exists cols. auto.
Qed.

Lemma decoded_arrays_match_header_witness :
  (decodePointCloud noInflate (Some quantizedOnePoint)).2 = [] /\
  exists raw hc,
    rawBytes noInflate quantizedOnePoint = Some raw /\
    getUint32 raw 0 =
      Some (numPoints (decodePointCloud noInflate (Some quantizedOnePoint)).1) /\
    getUint8 raw 4 = Some hc /\
    0 <= numPoints (decodePointCloud noInflate (Some quantizedOnePoint)).1
      < 4294967296 /\
    Z.of_nat (length [f32_zero; f32_one; S754_finite false 8388736 (-24)]) =
      3 * numPoints (decodePointCloud noInflate (Some quantizedOnePoint)).1 /\
    (if hc =? 1
     then exists cols,
         colors (decodePointCloud noInflate (Some quantizedOnePoint)).1
           = Some cols /\
         Z.of_nat (length cols) =
           3 * numPoints (decodePointCloud noInflate (Some quantizedOnePoint)).1
     else colors (decodePointCloud noInflate (Some quantizedOnePoint)).1
          = None).
Proof.
  apply (decoded_arrays_match_header noInflate quantizedOnePoint).
  vm_compute. reflexivity.
Defined.

(** X3. In a decoded payload that announces colours, every colour channel
    whose byte lies beyond the end of the payload is NaN: the colour
    block is never checked against the payload length. *)
Theorem missing_color_bytes_decode_to_NaN
        (inflate : bytes -> option bytes) (d : PointCloudData)
        (pts : list f32) (raw : bytes) (n i : Z) :
  points (decodePointCloud inflate (Some d)).1 = Some pts ->
  rawBytes inflate d = Some raw ->
  getUint32 raw 0 = Some n ->
  getUint8 raw 4 = Some 1 ->
  0 <= i < 3 * n ->
  Z.of_nat (length raw) <= 29 + 6 * n + i ->
  exists cols,
    colors (decodePointCloud inflate (Some d)).1 = Some cols /\
    at_index cols i = Some NaN.
Proof.
  intros Hp Hraw Hn Hhc Hi Hlen.
  destruct (decode_success inflate d pts Hp) as (_ & r & Hbody & Hdec).
  destruct (decode_layout inflate d pts Hp) as (Hq & _).
  destruct (decodeBody_quantized inflate d r Hq Hbody)
    as (raw' & n' & hc & minX & minY & minZ & rangeX & rangeY & rangeZ
        & arr & off & Hraw' & Hn' & Hhc' & _ & _ & _ & _ & _ & _ & Hloop & ->).
  rewrite Hraw in Hraw'. injection Hraw' as <-.
  rewrite Hn in Hn'. injection Hn' as <-.
  rewrite Hhc in Hhc'. injection Hhc' as <-.
  rewrite Hdec. simpl.
  apply quantizedLoop_inv in Hloop as (Hoff & _);
    [| lia | rewrite Float32Array_new_length; lia].
  eexists. split; [reflexivity|].
  destruct (colorsLoop_spec raw off (Z.to_nat (n * 3)) 0
              (Float32Array_new (n * 3)))
    as (_ & _ & Hcn); [lia | rewrite Float32Array_new_length; lia |].
  rewrite Hcn by lia.
  assert (Hnone : at_index raw (off + i) = None).
  { unfold at_index. destruct (Z.ltb_spec (off + i) 0); [reflexivity|].
    apply lookup_ge_None. lia. }
  rewrite Hnone. reflexivity.
Qed.

Lemma missing_color_bytes_decode_to_NaN_witness :
  exists cols,
    colors (decodePointCloud noInflate (Some quantizedNoColorBytes)).1
      = Some cols /\
    at_index cols 2 = Some NaN.
Proof.
  apply (missing_color_bytes_decode_to_NaN noInflate quantizedNoColorBytes
           [f32_zero; f32_one; S754_finite false 8388736 (-24)]
           noColorBytes 1 2).
  - vm_compute. reflexivity.
  - vm_compute. reflexivity.
  - vm_compute. reflexivity.
  - vm_compute. reflexivity.
  - lia.
  - vm_compute. discriminate.
Defined.

(** X4. The [num_points] field of the message only triggers the early
    return: two messages that differ only in a non-zero [num_points]
    decode to the same result, whose count comes from the header. *)
Theorem message_count_is_not_used
        (inflate : bytes -> option bytes)
        (a b : Z) (s : string) (c q : bool) :
  a <> 0 -> b <> 0 ->
  decodePointCloud inflate
    (Some {| num_points := a; data := s; compressed := c; quantized := q |})
  = decodePointCloud inflate
    (Some {| num_points := b; data := s; compressed := c; quantized := q |}).
Proof.
  intros Ha Hb. unfold decodePointCloud. simpl.
  destruct (Z.eqb_spec a 0); [contradiction|].
  destruct (Z.eqb_spec b 0); [contradiction|].
  reflexivity.
Qed.

Lemma message_count_is_not_used_witness :
  decodePointCloud noInflate
    (Some {| num_points := 1; data := data quantizedOnePoint;
             compressed := false; quantized := true |})
  = decodePointCloud noInflate
    (Some {| num_points := 7; data := data quantizedOnePoint;
             compressed := false; quantized := true |}).
Proof.
  apply (message_count_is_not_used noInflate 1 7); lia.
Defined.

(** X5. No payload sent as raw float32 ([quantized] false) is ever
    decoded: whatever its bytes, compression and decompressor, the view
    at byte offset 5 is refused, the failure result is returned and one
    error is logged. *)
Theorem raw_payloads_are_rejected
        (inflate : bytes -> option bytes) (d : PointCloudData) :
  quantized d = false -> num_points d <> 0 ->
  decodePointCloud inflate (Some d) =
    ({| points := None; colors := None; numPoints := 0 |},
     [decodeErrorMessage]).
Proof. apply raw_payload_never_decodes. Qed.

Lemma raw_payloads_are_rejected_witness :
  decodePointCloud noInflate (Some rawTwoPoints) =
    ({| points := None; colors := None; numPoints := 0 |},
     [decodeErrorMessage]).
Proof.
  apply (raw_payloads_are_rejected noInflate rawTwoPoints).
  - reflexivity.
  - vm_compute. discriminate.
Defined.

End CodecMore.

Module ColorFacts.
Import Num Platform Codec ColorDefs.

Lemma all_bytes_complete (b : Byte.byte) : List.In b all_bytes.
Proof.
  assert (H : existsb (Byte.eqb b) all_bytes = true)
    by (destruct b; vm_compute; reflexivity).
  apply existsb_exists in H as (x & Hin & Heq).
  apply Byte.byte_dec_bl in Heq. subst x. exact Hin.
Qed.

Lemma channel_order_table_true : channel_order_table = true.
Proof. vm_compute. reflexivity. Qed.

Lemma tagged_complete (b : Byte.byte) :
  List.In (b, colorChannel (Some b)) tagged_channels.
Proof.
  unfold tagged_channels.
  apply (in_map (fun b => (b, colorChannel (Some b)))), all_bytes_complete.
Qed.

(** X6. Colour decoding is exact at both ends and order preserving: byte
    0 gives exactly 0, byte 255 exactly 1, and one channel is below
    another exactly when its byte is smaller, so distinct bytes never
    collapse to the same float32 value. *)
Theorem color_channels_keep_byte_order (b b' : Byte.byte) :
  colorChannel (Some Byte.x00) = f32_zero /\
  colorChannel (Some Byte.xff) = f32_one /\
  SFltb (colorChannel (Some b)) (colorChannel (Some b'))
  = (byteZ b <? byteZ b').
Proof.
  split; [vm_compute; reflexivity|]. split; [vm_compute; reflexivity|].
  pose proof channel_order_table_true as H. unfold channel_order_table in H.
  rewrite forallb_forall in H. specialize (H _ (tagged_complete b)).
  rewrite forallb_forall in H. specialize (H _ (tagged_complete b')).
  unfold channel_order_agrees in H. apply Bool.eqb_prop in H. exact H.
Qed.

End ColorFacts.


(* ===================================================================== *)
(** * More facts about the viewer *)
(* ===================================================================== *)

Module ViewerMore.
Import Num Platform Codec Viewer Samples CodecFacts ViewerFacts StatsDefs.

Lemma displayed_count b points colors n :
  displayedPoints (subsample b points colors n) =
  if b <? n then floorDiv n (ceilDiv n b) else n.
Proof.
  unfold subsample. destruct (b <? n); [|reflexivity].
  match goal with
  | |- context [subsampleLoop ?a ?b ?c ?d ?e ?f ?g ?h ?i ?j] =>
      destruct (subsampleLoop a b c d e f g h i j) as [np nc]
  end.
  reflexivity.
Qed.

Lemma count_bounds n b :
  1 <= b -> b < n ->
  1 <= floorDiv n (ceilDiv n b) <= b /\ b <= 2 * floorDiv n (ceilDiv n b).
Proof.
  intros Hb Hn.
  destruct (stride_facts n b Hb Hn) as (Hs & Hf).
  pose proof (ceilDiv_bounds n b Hb) as Hc.
  pose proof (floorDiv_bounds n (ceilDiv n b) ltac:(lia)) as Hfl.
  split; [exact Hf|].
  set (s := ceilDiv n b) in *. set (c := floorDiv n s) in *.
  destruct (Z.eq_dec b 1) as [-> | Hb1]; [lia|].
  assert (H : s * b <= 2 * (s * c)); [|nia].
  assert (Hk : (s - 2) * (b - 2) >= 0) by nia.
  nia.
Qed.

(** X7. When the cloud exceeds the budget, at least half of the budget
    is still shown: [budget <= 2 * displayedPoints <= 2 * budget]. *)
Theorem lod_shows_at_least_half_budget
        (budget : Z) (points : list f32) (colors : option (list f32))
        (numPoints : Z) :
  1 <= budget -> budget < numPoints ->
  let shownCount :=
    displayedPoints (subsample budget points colors numPoints) in
  budget <= 2 * shownCount /\ shownCount <= budget.
Proof.
  intros Hb Hn. cbv zeta. rewrite displayed_count.
  destruct (Z.ltb_spec budget numPoints); [|lia].
  destruct (count_bounds numPoints budget Hb Hn). lia.
Qed.

Lemma lod_shows_at_least_half_budget_witness :
  let shownCount := displayedPoints (subsample 3 (ramp 30) None 10) in
  3 <= 2 * shownCount /\ shownCount <= 3.
Proof. apply (lod_shows_at_least_half_budget 3 (ramp 30) None 10); lia. Defined.

(** X8. Reducing twice is reducing once: the output of the reduction is
    within the budget, so reducing it again with the same budget returns
    it unchanged. *)
Theorem lod_is_idempotent
        (budget : Z) (points : list f32) (colors : option (list f32))
        (numPoints : Z) :
  1 <= budget ->
  let r := subsample budget points colors numPoints in
  subsample budget (shownPoints r) (shownColors r) (displayedPoints r) = r.
Proof.
  intros Hb. cbv zeta.
  set (r := subsample budget points colors numPoints).
  assert (Hle : displayedPoints r <= budget).
  { subst r. rewrite displayed_count.
    destruct (Z.ltb_spec budget numPoints) as [Hn|]; [|lia].
    destruct (count_bounds numPoints budget Hb Hn). lia. }
  unfold subsample at 1.
  destruct (Z.ltb_spec budget (displayedPoints r)); [lia|].
  destruct r; reflexivity.
Qed.

Lemma lod_is_idempotent_witness :
  let r := subsample 3 (ramp 30) None 10 in
  subsample 3 (shownPoints r) (shownColors r) (displayedPoints r) = r.
Proof. apply (lod_is_idempotent 3 (ramp 30) None 10). lia. Defined.

(** X9. Raising the budget never shows fewer points. *)
Theorem lod_is_monotone_in_budget
        (b1 b2 : Z) (points : list f32) (colors : option (list f32))
        (numPoints : Z) :
  1 <= b1 -> b1 <= b2 ->
  displayedPoints (subsample b1 points colors numPoints)
  <= displayedPoints (subsample b2 points colors numPoints).
Proof.
  intros H1 H12. rewrite !displayed_count.
  destruct (Z.ltb_spec b1 numPoints) as [Hn1|Hn1];
    destruct (Z.ltb_spec b2 numPoints) as [Hn2|Hn2]; try lia.
  - destruct (stride_facts numPoints b1 H1 Hn1) as (Hs1 & _).
    destruct (stride_facts numPoints b2 ltac:(lia) Hn2) as (Hs2 & _).
    pose proof (ceilDiv_bounds numPoints b1 H1) as Hc1.
    pose proof (ceilDiv_bounds numPoints b2 ltac:(lia)) as Hc2.
    assert (Hss : ceilDiv numPoints b2 <= ceilDiv numPoints b1) by nia.
    unfold floorDiv. apply Z.div_le_compat_l; lia.
  - destruct (count_bounds numPoints b1 H1 Hn1). lia.
Qed.

Lemma lod_is_monotone_in_budget_witness :
  displayedPoints (subsample 3 (ramp 30) None 10)
  <= displayedPoints (subsample 4 (ramp 30) None 10).
Proof. apply (lod_is_monotone_in_budget 3 4 (ramp 30) None 10); lia. Defined.


(** X10. Whatever message arrives, if the effect reaches the geometry
    update then between 1 and [budget] points are shown, the position
    array has three entries per shown point, and so has the colour array
    when there is one. *)
Theorem geometry_arrays_are_consistent
        (inflate : bytes -> option bytes) (data : option PointCloudData)
        (budget : Z) (d : Displayed) :
  1 <= budget ->
  updateCloud budget (decodePointCloud inflate data).1 = Some d ->
  1 <= displayedPoints d <= budget /\
  Z.of_nat (length (shownPoints d)) = 3 * displayedPoints d /\
  match shownColors d with
  | Some cs => Z.of_nat (length cs) = 3 * displayedPoints d
  | None => True
  end.
Proof.
  intros Hb Hup. unfold updateCloud in Hup.
  destruct (points (decodePointCloud inflate data).1) as [pts|] eqn:Hp;
    [|discriminate].
  destruct data as [dt|]; [|discriminate].
  destruct (decode_layout inflate dt pts Hp)
    as (_ & raw & n & hc & _ & Hn & _ & Hnum & Hlay & Hcol).
  pose proof (getUint32_Some _ _ _ Hn) as (_ & _ & Hn0).
  destruct Hlay as (? & ? & ? & ? & ? & ? & _ & _ & _ & _ & _ & _ & Hlen & _).
  rewrite Hnum in Hup.
  destruct (Z.eqb_spec n 0) as [|Hnz]; [discriminate|].
  set (cl := colors (decodePointCloud inflate (Some dt)).1) in *.
  assert (Hcl : forall cs, cl = Some cs -> Z.of_nat (length cs) = 3 * n).
  { intros cs Hcs. destruct (hc =? 1).
    - destruct Hcol as (cols & Hc & Hl & _). congruence.
    - congruence. }
  clearbody cl. injection Hup as <-.
  destruct (Z.ltb_spec budget n) as [Hover | Hfit].
  - destruct (subsample_over_budget budget pts cl n Hb Hover Hlen Hcl)
      as (_ & Hd & (Hpl & _) & Hc).
    destruct (count_bounds n budget Hb Hover) as (Hcnt & _).
    rewrite Hd. split; [exact Hcnt|]. split; [exact Hpl|].
    destruct cl as [cs|].
    + destruct Hc as (rc & -> & (Hrl & _)). exact Hrl.
    + rewrite Hc. exact I.
  - unfold subsample. destruct (Z.ltb_spec budget n); [lia|]. simpl.
    split; [lia|]. split; [exact Hlen|].
    destruct cl as [cs|]; [apply Hcl; reflexivity | exact I].
Qed.

Lemma geometry_arrays_are_consistent_witness :
  let d := subsample 30000 [f32_zero; f32_one; S754_finite false 8388736 (-24)]
             (colors (decodePointCloud noInflate (Some quantizedOnePoint)).1) 1 in
  1 <= displayedPoints d <= 30000 /\
  Z.of_nat (length (shownPoints d)) = 3 * displayedPoints d /\
  match shownColors d with
  | Some cs => Z.of_nat (length cs) = 3 * displayedPoints d
  | None => True
  end.
Proof.
  apply (geometry_arrays_are_consistent noInflate (Some quantizedOnePoint) 30000).
  - lia.
  - vm_compute. reflexivity.
Defined.

(** X11. After the effect has shown a decoded cloud, the statistics
    overlay appends the total count exactly when the cloud was
    subsampled, and the [&&] chain never leaks a bare 0. *)
Theorem total_is_shown_iff_subsampled
        (budget : Z) (prev : Stats) (r : DecodeResult) (d : Displayed) :
  1 <= budget ->
  updateCloud budget r = Some d ->
  totalSuffix (statsAfter budget prev r) =
    if budget <? numPoints r then OutOf (numPoints r) else NoSuffix.
Proof.
  intros Hb Hup. unfold statsAfter. rewrite Hup.
  unfold updateCloud in Hup.
  destruct (points r) as [pts|]; [|discriminate].
  destruct (Z.eqb_spec (numPoints r) 0) as [|Hnz]; [discriminate|].
  injection Hup as <-.
  unfold totalSuffix, updateStats. simpl.
  destruct (Z.eqb_spec (numPoints r) 0); [contradiction|].
  rewrite displayed_count.
  destruct (Z.ltb_spec budget (numPoints r)) as [Hover|Hfit].
  - destruct (count_bounds (numPoints r) budget Hb Hover) as (Hc & _).
    destruct (Z.eqb_spec (numPoints r)
                (floorDiv (numPoints r) (ceilDiv (numPoints r) budget)));
      [lia | reflexivity].
  - rewrite Z.eqb_refl. reflexivity.
Qed.

Lemma total_is_shown_iff_subsampled_witness :
  totalSuffix
    (statsAfter 3 {| shown := 0; totalPoints := None; fps := 0 |}
       {| points := Some (ramp 30); colors := None; numPoints := 10 |})
  = OutOf 10.
Proof.
  apply (total_is_shown_iff_subsampled 3
           {| shown := 0; totalPoints := None; fps := 0 |}
           {| points := Some (ramp 30); colors := None; numPoints := 10 |}
           (subsample 3 (ramp 30) None 10)).
  - lia.
  - reflexivity.
Defined.

End ViewerMore.


(* ===================================================================== *)
(** * More facts about the display state *)
(* ===================================================================== *)

Module OverlayMore.
Import Overlay OverlayExtra MoreSamples.

Lemma truthy_add_elem (v : option Z) (s : gset Z) (z : Z) :
  z ∈ (if truthy v then add v s else s) <->
  z ∈ s \/ (z <> 0 /\ v = Some z).
Proof.
  destruct v as [y|]; simpl.
  - destruct (Z.eqb_spec y 0) as [-> | Hy]; simpl.
    + split; [auto | intros [H | [H1 [= H2]]]; [exact H | congruence]].
    + rewrite elem_of_union, elem_of_singleton. split.
      * intros [-> | H]; [right; auto | left; exact H].
      * intros [H | [_ [= ->]]]; [right; exact H | left; reflexivity].
  - split; [auto | intros [H | [_ H]]; [exact H | discriminate]].
Qed.

Lemma field_fold (f : HandInfo -> option Z) (hs : list HandInfo) :
  forall (acc : gset Z) z,
    z ∈ fold_left
          (fun ids hand => if truthy (f hand) then add (f hand) ids else ids)
          hs acc <->
    z ∈ acc \/ (z <> 0 /\ held f hs z).
Proof.
  induction hs as [|hand hs IH]; intros acc z; simpl.
  - split; [auto | intros [H | [_ (h & Hh & _)]]; [exact H|]].
    apply elem_of_nil in Hh. contradiction.
  - rewrite IH, truthy_add_elem. unfold held. split.
    + intros [[H | [Hz Hs]] | [Hz (h & Hh & Hs)]].
      * left; exact H.
      * right. split; [exact Hz|]. exists hand. split; [left | exact Hs].
      * right. split; [exact Hz|]. exists h. split; [right; exact Hh | exact Hs].
    + intros [H | [Hz (h & Hh & Hs)]]; [left; left; exact H|].
      apply elem_of_cons in Hh as [-> | Hh].
      * left; right. auto.
      * right. split; [exact Hz|]. exists h. auto.
Qed.

Lemma hovered_fold (sel : gset Z) (hs : list HandInfo) :
  forall (acc : gset Z) z,
    z ∈ fold_left
          (fun ids hand =>
             if truthy (hovered hand) && negb (has sel (hovered hand))
             then add (hovered hand) ids else ids)
          hs acc <->
    z ∈ acc \/ (z <> 0 /\ (z ∉ sel) /\ held hovered hs z).
Proof.
  induction hs as [|hand hs IH]; intros acc z; simpl.
  - split; [auto | intros [H | (_ & _ & h & Hh & _)]; [exact H|]].
    apply elem_of_nil in Hh. contradiction.
  - rewrite IH. unfold held.
    assert (Hstep :
      z ∈ (if truthy (hovered hand) && negb (has sel (hovered hand))
           then add (hovered hand) acc else acc) <->
      z ∈ acc \/ (z <> 0 /\ (z ∉ sel) /\ hovered hand = Some z)).
    { destruct (hovered hand) as [y|]; simpl.
      - destruct (Z.eqb_spec y 0) as [-> | Hy]; simpl.
        + split; [auto | intros [H | (H1 & _ & [= H2])]; [exact H | congruence]].
        + destruct (bool_decide_reflect (y ∈ sel)) as [Hin | Hnin]; simpl.
          * split; [auto | intros [H | (_ & Hn & [= ->])]; [exact H | contradiction]].
          * rewrite elem_of_union, elem_of_singleton. split.
            -- intros [-> | H]; [right; auto | left; exact H].
            -- intros [H | (_ & _ & [= ->])]; [right; exact H | left; reflexivity].
      - split; [auto | intros [H | (_ & _ & H)]; [exact H | discriminate]]. }
    rewrite Hstep. split.
    + intros [[H | (Hz & Hn & Hs)] | (Hz & Hn & h & Hh & Hs)].
      * left; exact H.
      * right. repeat split; try assumption. exists hand. split; [left | exact Hs].
      * right. repeat split; try assumption.
        exists h. split; [right; exact Hh | exact Hs].
    + intros [H | (Hz & Hn & h & Hh & Hs)]; [left; left; exact H|].
      apply elem_of_cons in Hh as [-> | Hh].
      * left; right. auto.
      * right. repeat split; try assumption. exists h. auto.
Qed.

Lemma selectedIds_elem interaction z :
  z ∈ selectedIds interaction <->
  z <> 0 /\ held selected (handStates interaction) z.
Proof.
  unfold selectedIds. rewrite (field_fold selected). split.
  - intros [H | H]; [apply elem_of_empty in H; contradiction | exact H].
  - auto.
Qed.

Lemma hoveredIds_elem interaction z :
  z ∈ hoveredIds interaction <->
  z <> 0 /\ held hovered (handStates interaction) z /\
  ~ held selected (handStates interaction) z.
Proof.
  unfold hoveredIds. rewrite hovered_fold, selectedIds_elem. split.
  - intros [H | (Hz & Hn & Hh)]; [apply elem_of_empty in H; contradiction|].
    split; [exact Hz|]. split; [exact Hh|]. intros Hs. apply Hn. auto.
  - intros (Hz & Hh & Hn). right. split; [exact Hz|]. split; [|exact Hh].
    intros [_ Hs]. contradiction.
Qed.

Lemma collect_fold (hs : list HandInfo) :
  forall sel hov : gset Z,
    fold_left
      (fun '(selectedIds, hoveredIds) hand =>
         let selectedIds :=
           if truthy (selected hand) then add (selected hand) selectedIds
           else selectedIds in
         let hoveredIds :=
           if truthy (hovered hand) then add (hovered hand) hoveredIds
           else hoveredIds in
         (selectedIds, hoveredIds))
      hs (sel, hov) =
    (fold_left
       (fun ids hand =>
          if truthy (selected hand) then add (selected hand) ids else ids)
       hs sel,
     fold_left
       (fun ids hand =>
          if truthy (hovered hand) then add (hovered hand) ids else ids)
       hs hov).
Proof.
  induction hs as [|hand hs IH]; intros sel hov; simpl; [reflexivity|].
  apply IH.
Qed.

Lemma collect_elem interaction z :
  (z ∈ (collect (handStates interaction)).1 <-> z ∈ selectedIds interaction) /\
  (z ∈ (collect (handStates interaction)).2 <->
   z <> 0 /\ held hovered (handStates interaction) z).
Proof.
  unfold collect. rewrite collect_fold. simpl. split; [reflexivity|].
  rewrite (field_fold hovered). split.
  - intros [H | H]; [apply elem_of_empty in H; contradiction | exact H].
  - auto.
Qed.


Lemma has_true (s : gset Z) (z : Z) : has s (Some z) = true <-> z ∈ s.
Proof. simpl. apply bool_decide_eq_true. Qed.

Lemma bool_eq_iff (a b : bool) : (a = true <-> b = true) -> a = b.
Proof. destruct a, b; intros [H1 H2]; auto; try (symmetry; auto). Qed.

(** X12. An id is in the selected set exactly when it is non-zero and
    some hand of the snapshot reports it as selected; it is in the hovered
    set of [InteractionDemo] exactly when it is non-zero, some hand reports
    it as hovered and no hand reports it as selected. *)
Theorem marked_ids_are_the_ids_held
        (interaction : option Interaction) (z : Z) :
  (z ∈ selectedIds interaction <->
   z <> 0 /\ held selected (handStates interaction) z) /\
  (z ∈ hoveredIds interaction <->
   z <> 0 /\ held hovered (handStates interaction) z /\
   ~ held selected (handStates interaction) z).
Proof. split; [apply selectedIds_elem | apply hoveredIds_elem]. Qed.

(** X13. An object whose id is 0 or missing is never shown selected or
    hovered by [InteractionDemo], even when a hand reports exactly that
    id: falsy ids are not added to the sets. *)
Theorem falsy_ids_are_never_marked
        (interaction : option Interaction) (obj : SceneObject) :
  truthy (id obj) = false ->
  has (selectedIds interaction) (id obj) = false /\
  has (hoveredIds interaction) (id obj) = false.
Proof.
  intros Hf. destruct (id obj) as [z|]; [|split; reflexivity].
  simpl in Hf. apply negb_false_iff, Z.eqb_eq in Hf. subst z.
  split; apply not_true_is_false; rewrite has_true.
  - rewrite selectedIds_elem. intros [H _]. contradiction.
  - rewrite hoveredIds_elem. intros [H _]. contradiction.
Qed.

Lemma falsy_ids_are_never_marked_witness :
  has (selectedIds zeroHand) (Some 0) = false /\
  has (hoveredIds zeroHand) (Some 0) = false.
Proof.
  apply (falsy_ids_are_never_marked zeroHand {| id := Some 0; label := "" |}).
  reflexivity.
Defined.

Lemma overlay_flags interaction (z : Z) :
  z <> 0 ->
  let '(sel, hov) := collect (handStates interaction) in
  has sel (Some z) = has (selectedIds interaction) (Some z) /\
  has hov (Some z) && negb (has sel (Some z)) =
  has (hoveredIds interaction) (Some z).
Proof.
  intros Hz.
  pose proof (collect_elem interaction z) as [Hs Hh].
  destruct (collect (handStates interaction)) as [sel hov]. simpl in Hs, Hh.
  assert (E1 : has sel (Some z) = has (selectedIds interaction) (Some z)).
  { apply bool_eq_iff. rewrite !has_true. exact Hs. }
  split; [exact E1|].
  rewrite E1. apply bool_eq_iff.
  rewrite andb_true_iff, negb_true_iff, !has_true.
  rewrite <- not_true_iff_false, has_true.
  rewrite Hh, hoveredIds_elem, selectedIds_elem. tauto.
Qed.

(** X14. [InteractionOverlay] and [InteractionDemo] agree: on objects
    whose ids are all truthy, both components compute the same selected
    and hovered flags from a snapshot. *)
Theorem overlay_and_demo_agree
        (objs : list SceneObject) (interaction : option Interaction) :
  Forall (fun o => truthy (id o) = true) objs ->
  (fun o => (source o, isSelected o, isHovered o))
    <$> objectsWithState objs interaction
  = demoShapes objs interaction.
Proof.
  intros Hall. unfold objectsWithState, demoShapes.
  pose proof (overlay_flags interaction) as Hflags.
  destruct (collect (handStates interaction)) as [sel hov].
  apply list_eq. intros k.
  rewrite list_lookup_fmap, list_lookup_imap, list_lookup_fmap.
  destruct (objs !! k) as [obj|] eqn:Ek; [|reflexivity]. simpl.
  rewrite Forall_forall in Hall.
  assert (Ht : truthy (id obj) = true)
    by (apply Hall; eapply list_elem_of_lookup_2; exact Ek).
  destruct (id obj) as [z|]; [|discriminate]. simpl in Ht |- *.
  rewrite Ht.
  apply negb_true_iff, Z.eqb_neq in Ht.
  destruct (Hflags z Ht) as [E1 E2]. simpl in E1, E2.
  rewrite E2, E1. reflexivity.
Qed.

Lemma overlay_and_demo_agree_witness :
  (fun o => (source o, isSelected o, isHovered o))
    <$> objectsWithState threeObjects twoHands
  = demoShapes threeObjects twoHands.
Proof.
  apply (overlay_and_demo_agree threeObjects twoHands).
  repeat constructor.
Defined.

(** X15. Selection wins over hovering across hands: an object whose
    non-zero id some hand reports as selected is shown selected and not
    hovered by both components, whatever the other hands hover. *)
Theorem selected_by_any_hand_is_shown_selected
        (objs : list SceneObject) (interaction : option Interaction)
        (k : nat) (obj : SceneObject) (z : Z) :
  objs !! k = Some obj ->
  id obj = Some z -> z <> 0 ->
  held selected (handStates interaction) z ->
  demoShapes objs interaction !! k = Some (obj, true, false) /\
  exists o, objectsWithState objs interaction !! k = Some o /\
            source o = obj /\ shownId o = z /\
            isSelected o = true /\ isHovered o = false.
Proof.
  intros Hk Hid Hz Hheld.
  assert (Hs : has (selectedIds interaction) (Some z) = true).
  { rewrite has_true, selectedIds_elem. auto. }
  assert (Hh : has (hoveredIds interaction) (Some z) = false).
  { apply not_true_is_false. rewrite has_true, hoveredIds_elem. tauto. }
  split.
  - unfold demoShapes. rewrite list_lookup_fmap, Hk. simpl.
    rewrite Hid, Hs, Hh. reflexivity.
  - unfold objectsWithState.
    pose proof (overlay_flags interaction z Hz) as Hflags.
    destruct (collect (handStates interaction)) as [sel hov].
    destruct Hflags as [E1 E2]. simpl in E1, E2.
    rewrite list_lookup_imap, Hk. simpl. eexists. split; [reflexivity|].
    simpl. rewrite Hid. simpl.
    apply Z.eqb_neq in Hz. rewrite Hz. simpl.
    rewrite E2, E1. simpl in Hs, Hh. rewrite Hs, Hh. auto.
Qed.

Lemma selected_by_any_hand_is_shown_selected_witness :
  demoShapes threeObjects twoHands !! 1%nat
    = Some ({| id := Some 7; label := "b" |}, true, false) /\
  exists o, objectsWithState threeObjects twoHands !! 1%nat = Some o /\
            source o = {| id := Some 7; label := "b" |} /\ shownId o = 7 /\
            isSelected o = true /\ isHovered o = false.
Proof.
  apply (selected_by_any_hand_is_shown_selected threeObjects twoHands 1
           {| id := Some 7; label := "b" |} 7).
  - reflexivity.
  - reflexivity.
  - lia.
  - exists {| selected := Some 7; hovered := None |}.
    split; [left | reflexivity].
Defined.

End OverlayMore.

Module OverlayMore2.
Import Overlay OverlayExtra MoreSamples OverlayMore.

(** X16. The event notifications are the last three events of the
    snapshot in their order, all of them when there are fewer, and none
    when the snapshot or its event list is missing. *)
Theorem recent_events_are_the_last_three {A} (events : option (list A)) :
  match events with
  | Some evs =>
      exists older, evs = older ++ recentEvents events /\
                    length (recentEvents events) = Nat.min 3 (length evs)
  | None => recentEvents events = []
  end.
Proof.
  destruct events as [evs|]; [|reflexivity].
  unfold recentEvents, slice_from. change (-3 <? 0) with true. cbv iota.
  set (k := Z.to_nat (Z.max (Z.of_nat (length evs) + -3) 0)).
  exists (take k evs). split; [symmetry; apply take_drop|].
  rewrite length_drop. subst k. lia.
Qed.

(** X17. A connection line only ends at an object that is shown
    selected: the object found for a hand of the snapshot carries that
    hand's selected id, has its selected flag set and its hovered flag
    cleared. *)
Theorem connection_lines_end_at_selected_objects
        (objs : list SceneObject) (interaction : option Interaction)
        (hand : HandInfo) (position : option (Z * Z))
        (o : ObjectWithState) :
  hand ∈ handStates interaction ->
  connectionTarget objs interaction hand position = Some o ->
  selected hand = Some (shownId o) /\
  isSelected o = true /\ isHovered o = false.
Proof.
  intros Hin Ht. unfold connectionTarget in Ht.
  destruct (truthy (selected hand)) eqn:Etr; simpl in Ht; [|discriminate].
  destruct (bool_decide (is_Some position)); simpl in Ht; [|discriminate].
  apply find_some in Ht as [Hino Heq].
  apply bool_decide_eq_true in Heq.
  split; [symmetry; exact Heq|].
  assert (Hz : shownId o <> 0).
  { rewrite <- Heq in Etr. simpl in Etr.
    apply negb_true_iff, Z.eqb_neq in Etr. exact Etr. }
  assert (Hsel : shownId o ∈ selectedIds interaction).
  { apply selectedIds_elem. split; [exact Hz|].
    exists hand. split; [exact Hin | symmetry; exact Heq]. }
  unfold objectsWithState in Hino.
  pose proof (overlay_flags interaction (shownId o) Hz) as Hflags.
  destruct (collect (handStates interaction)) as [sel hov].
  destruct Hflags as [E1 E2].
  apply list_elem_of_In, elem_of_lookup_imap_1 in Hino as (i & obj & -> & _).
  simpl in *. rewrite E2, E1.
  apply has_true in Hsel. simpl in Hsel. rewrite Hsel.
  split; [reflexivity|].
  apply not_true_is_false. intros Hh. apply bool_decide_eq_true in Hh.
  apply hoveredIds_elem in Hh as (_ & _ & Hn). apply Hn.
  exists hand. split; [exact Hin | symmetry; exact Heq].
Qed.

Lemma connection_lines_end_at_selected_objects_witness :
  exists o,
    connectionTarget threeObjects twoHands
      {| selected := Some 7; hovered := None |} (Some (15, 15)) = Some o /\
    selected {| selected := Some 7; hovered := None |} = Some (shownId o) /\
    isSelected o = true /\ isHovered o = false.
Proof.
  eexists. split; [vm_compute; reflexivity|].
  apply (connection_lines_end_at_selected_objects threeObjects twoHands
           {| selected := Some 7; hovered := None |} (Some (15, 15))).
  - left.
  - vm_compute. reflexivity.
Defined.

End OverlayMore2.
